(** * Nebula-KTV: processing lifecycle, asset registry and range parsing

    A shallow embedding of three parts of the backend:

    - [app/api/stream.py]: [parse_range_header];
    - [worker/services/media_asset_service.py] and
      [app/services/media_asset_service.py]: the asset registry queries;
    - [worker/tasks/process_song.py]: [process_song_task], [_mark_song_failed]
      and the retry loop Celery runs around the task.

    Strings are Rocq strings (sequences of 8-bit characters), integers are
    [Z] (Python's [int] is unbounded), dictionaries are [gmap]s and database
    tables whose row order or duplicates matter are lists. *)

From Stdlib Require Import ZArith String Ascii.
From Stdlib Require Import DecimalString DecimalPos DecimalN DecimalZ.
From stdpp Require Import gmap strings list fin_maps.

#[local] Open Scope string_scope.
#[local] Open Scope Z_scope.
#[local] Set Warnings "-clear-no-such-hyp".

(** ** Python primitives used by the code *)

Module Py.

(** [\d] on the characters a request header can carry.  Headers reach the
    handler decoded as Latin-1, and among the code points below 256 the decimal
    digits are exactly '0'..'9'. *)
Definition is_digit (c : ascii) : bool :=
  match c with
  | "0" | "1" | "2" | "3" | "4" | "5" | "6" | "7" | "8" | "9" => true
  | _ => false
  end%char.

Definition digit_value (c : ascii) : Z := Z.of_nat (nat_of_ascii c) - 48.

(** [int(s)] on a string of decimal digits: the digits are folded from the
    left, most significant first.  The result is unbounded; the cap that
    recent interpreters put on the number of digits of a conversion is a
    setting of the interpreter and is not modelled. *)
Fixpoint int_acc (acc : Z) (s : string) : Z :=
  match s with
  | EmptyString => acc
  | String c s' => int_acc (acc * 10 + digit_value c) s'
  end.

Definition int (s : string) : Z := int_acc 0 s.

(** [str(n)], which is also how an f-string renders an [int]. *)
Definition str (n : Z) : string := NilZero.string_of_int (Z.to_int n).

(** The greedy [\d*]: the longest run of digits at the front of [s], and
    what follows it. *)
Fixpoint span_digits (s : string) : string * string :=
  match s with
  | String c s' =>
      if is_digit c then
        let '(ds, rest) := span_digits s' in (String c ds, rest)
      else (EmptyString, s)
  | EmptyString => (EmptyString, EmptyString)
  end.

(** A literal at the front of [s]; the rest of [s] when it is there. *)
Fixpoint strip_prefix (lit s : string) : option string :=
  match lit, s with
  | EmptyString, _ => Some s
  | String a lit', String b s' =>
      if Ascii.eqb a b then strip_prefix lit' s' else None
  | String _ _, EmptyString => None
  end.

Fixpoint all_digits (s : string) : bool :=
  match s with
  | EmptyString => true
  | String c s' => is_digit c && all_digits s'
  end.

Definition starts_with_digit (s : string) : bool :=
  match s with
  | EmptyString => false
  | String c _ => is_digit c
  end.

End Py.

(** ** [app/api/stream.py] *)

Module Stream.

(** The three [raise ValueError(...)] sites of [parse_range_header], in
    source order.  The first two report a malformed header, the third an
    interval that is empty after clamping. *)
Inductive ValueError : Type :=
  | InvalidRangeHeaderFormat (range_header : string)
  | BothStartAndEndEmpty
  | InvalidRange (start end_ : Z).

Definition is_malformed (e : ValueError) : bool :=
  match e with
  | InvalidRangeHeaderFormat _ | BothStartAndEndEmpty => true
  | InvalidRange _ _ => false
  end.

Definition is_unsatisfiable (e : ValueError) : bool :=
  match e with
  | InvalidRange _ _ => true
  | _ => false
  end.

(** The call of [re.match] in [parse_range_header], and the [groups()] of
    its result.  The pattern is the literal [bytes=], a group of digits, a
    dash and a second group of digits.

    [re.match] anchors the pattern at the start of the string only.  Each
    digit group is greedy and may be empty; giving back digits of the first
    group can never help, since the character after a shorter run is a digit
    and not the dash, so the first group is the whole run of digits.  The
    second group is the longest run after the dash, and whatever follows it
    is not looked at. *)
Definition match_range (range_header : string) : option (string * string) :=
  match Py.strip_prefix "bytes=" range_header with
  | None => None
  | Some after_eq =>
      let '(start_str, after_start) := Py.span_digits after_eq in
      match after_start with
      | String "-"%char after_dash =>
          let '(end_str, _) := Py.span_digits after_dash in
          Some (start_str, end_str)
      | _ => None
      end
  end.

Definition parse_range_header (range_header : string) (file_size : Z)
  : ValueError + Z * Z :=
  match match_range range_header with
  | None => inl (InvalidRangeHeaderFormat range_header)
  | Some (start_str, end_str) =>
      if String.eqb start_str "" && String.eqb end_str "" then
        inl BothStartAndEndEmpty
      else
        let '(start, end_) :=
          if String.eqb start_str "" then
            let suffix_length := Py.int end_str in
            (Z.max 0 (file_size - suffix_length), file_size - 1)
          else if String.eqb end_str "" then
            (Py.int start_str, file_size - 1)
          else
            (Py.int start_str, Py.int end_str) in
        let start := if start <? 0 then 0 else start in
        let end_ := if end_ >=? file_size then file_size - 1 else end_ in
        if start >? end_ then inl (InvalidRange start end_)
        else inr (start, end_)
  end.

(** The header a client builds for each of the three request forms. *)
Definition range_of (start end_ : Z) : string :=
  "bytes=" ++ Py.str start ++ "-" ++ Py.str end_.
Definition range_from (start : Z) : string :=
  "bytes=" ++ Py.str start ++ "-".
Definition range_suffix (suffix : Z) : string :=
  "bytes=-" ++ Py.str suffix.

End Stream.

(** ** The range grammar and interval of the specification

    These definitions follow the wording of the specification, not the
    code; the theorems on [parse_range_header] compare the two. *)

Module RangeSpec.

(** The whole string has one of the forms [bytes=<start>-<end>],
    [bytes=<start>-] and [bytes=-<suffix>]: both bounds are runs of decimal
    digits and at least one of them is not empty. *)
Definition three_forms (s : string) : Prop :=
  ∃ a b : string,
    s = "bytes=" ++ a ++ "-" ++ b
    ∧ Py.all_digits a = true ∧ Py.all_digits b = true
    ∧ (a ≠ "" ∨ b ≠ "").

(** The string starts with [bytes=<a>-<b>], where [a] and [b] are runs of
    digits and [b] is followed by something that is not a digit. *)
Definition leading_form (s a b : string) : Prop :=
  ∃ rest : string,
    s = "bytes=" ++ a ++ "-" ++ b ++ rest
    ∧ Py.all_digits a = true ∧ Py.all_digits b = true
    ∧ Py.starts_with_digit rest = false.

(** Steps 2 to 4: the interval asked for. *)
Definition interval (a b : string) (content_length : Z) : Z * Z :=
  if String.eqb a "" then
    (Z.max 0 (content_length - Py.int b), content_length - 1)
  else if String.eqb b "" then (Py.int a, content_length - 1)
  else (Py.int a, Py.int b).

(** Step 5: start is floored at 0, end is capped at the last offset. *)
Definition clamp (iv : Z * Z) (content_length : Z) : Z * Z :=
  (Z.max 0 (fst iv), Z.min (snd iv) (content_length - 1)).

End RangeSpec.

(** ** [app/models]: the rows of the two tables *)

(** A UUID is its 128-bit number. *)
Abbreviation uuid := N.

(** The values carried by metadata dictionaries and by [meta_json]. *)
#[warnings="-register-all"] Inductive PyVal : Type :=
  | PNone
  | PBool (b : bool)
  | PInt (n : Z)
  | PStr (s : string)
  | PList (l : list PyVal)
  | PDict (items : list (string * PyVal)).

(** [d.get(key)]: [None] when the key is absent. *)
Definition dict_get (d : gmap string PyVal) (key : string) : PyVal :=
  default PNone (d !! key).

Module AssetType.
Inductive t : Type :=
  | VIDEO_MASTER | AUDIO_ORIGINAL | AUDIO_INST | AUDIO_VOCAL
  | LYRICS_VTT | LYRICS_WORD_LEVEL | WAVEFORM_JSON.

Definition value (a : t) : string :=
  match a with
  | VIDEO_MASTER => "video_master"
  | AUDIO_ORIGINAL => "audio_original"
  | AUDIO_INST => "audio_inst"
  | AUDIO_VOCAL => "audio_vocal"
  | LYRICS_VTT => "lyrics_vtt"
  | LYRICS_WORD_LEVEL => "lyrics_word_level"
  | WAVEFORM_JSON => "waveform_json"
  end.
End AssetType.

Module SongStatus.
Inductive t : Type := PENDING | PROCESSING | READY | PARTIAL | FAILED.

Definition value (s : t) : string :=
  match s with
  | PENDING => "PENDING"
  | PROCESSING => "PROCESSING"
  | READY => "READY"
  | PARTIAL => "PARTIAL"
  | FAILED => "FAILED"
  end.
End SongStatus.

(** A row of [media_assets].  The surrogate key [id] and [created_at], which
    none of the functions below reads, are left out; [type] is a string column,
    as in the model. *)
Module MediaAsset.
Record t : Type := make {
  song_id : uuid;
  type : string;
  path : string;
  file_size : PyVal;
  duration : PyVal;
  codec : PyVal;
  bitrate : PyVal;
  resolution : PyVal
}.
End MediaAsset.

(** A row of [songs], reduced to the columns the worker reads or writes.  The
    primary key [id] is the key of the table below. *)
Module Song.
Record t : Type := make {
  status : string;
  meta_json : option (gmap string PyVal)
}.

Definition set_status (v : string) (song : t) : t :=
  {| status := v; meta_json := meta_json song |}.

Definition set_meta_json (m : option (gmap string PyVal)) (song : t) : t :=
  {| status := status song; meta_json := m |}.
End Song.

(** The database: [songs] by primary key, [media_assets] in row order (the
    table has no uniqueness constraint on song and type). *)
Record DB : Type := mkDB {
  songs : gmap uuid Song.t;
  media_assets : list MediaAsset.t
}.

Definition with_songs (s : gmap uuid Song.t) (db : DB) : DB :=
  {| songs := s; media_assets := media_assets db |}.

Definition with_media_assets (l : list MediaAsset.t) (db : DB) : DB :=
  {| songs := songs db; media_assets := l |}.

(** ** SQLAlchemy result accessors *)

Module Sql.

Inductive Error : Type := MultipleResultsFound.

(** [Query.first()] on a query without [ORDER BY]: [None] when no row
    matches, and otherwise one of the matching rows.  Which one is the
    choice of the database, not of the code: [choose] gives its position
    among the rows that match, counted modulo their number. *)
Definition first {A} (choose : list A → nat) (rows : list A) : option A :=
  rows !! Nat.modulo (choose rows) (length rows).

(** [Result.scalar_one_or_none()]: the only row, [None] when there is no
    row, and [MultipleResultsFound] raised when there are several. *)
Definition scalar_one_or_none {A} (rows : list A) : Error + option A :=
  match rows with
  | [] => inr None
  | [row] => inr (Some row)
  | _ :: _ :: _ => inl MultipleResultsFound
  end.

End Sql.

(** ** The unit of work of a session

    An object loaded in a session holds the values of its columns, and the
    session records which attributes the code assigns.  A commit writes the
    assigned attributes only, each with the value it holds at that time.
    [song.status = v] and [song.meta_json = m] are assignments.
    [song.meta_json[key] = v] is not: it changes the dictionary the attribute
    holds in place, and since [meta_json] is declared as a plain [JSONB]
    column (no [MutableDict], and nothing calls [flag_modified]) the session
    does not see the change. *)

Module Session.

Record Loaded : Type := mkLoaded {
  obj : Song.t;
  status_assigned : bool;
  meta_json_assigned : bool
}.

(** The object a query returns. *)
Definition load (row : Song.t) : Loaded :=
  {| obj := row; status_assigned := false; meta_json_assigned := false |}.

(** [song.status = v] *)
Definition assign_status (v : string) (song : Loaded) : Loaded :=
  {| obj := Song.set_status v (obj song);
     status_assigned := true;
     meta_json_assigned := meta_json_assigned song |}.

(** [song.meta_json = m] *)
Definition assign_meta_json
    (m : option (gmap string PyVal)) (song : Loaded) : Loaded :=
  {| obj := Song.set_meta_json m (obj song);
     status_assigned := status_assigned song;
     meta_json_assigned := true |}.

(** [song.meta_json[key] = v], on an object whose [meta_json] is a
    dictionary. *)
Definition setitem_meta_json
    (key : string) (v : PyVal) (song : Loaded) : Loaded :=
  {| obj := Song.set_meta_json (insert key v <$> Song.meta_json (obj song))
                               (obj song);
     status_assigned := status_assigned song;
     meta_json_assigned := meta_json_assigned song |}.

(** [db.commit()]: the row as it is stored afterwards. *)
Definition commit (row : Song.t) (song : Loaded) : Song.t :=
  {| Song.status :=
       if status_assigned song then Song.status (obj song)
       else Song.status row;
     Song.meta_json :=
       if meta_json_assigned song then Song.meta_json (obj song)
       else Song.meta_json row |}.

End Session.

(** ** [worker/services/media_asset_service.py] *)

Module SyncMediaAssetService.

Definition get_assets_by_song (db : DB) (song_id : uuid) : list MediaAsset.t :=
  filter (λ a, MediaAsset.song_id a = song_id) (media_assets db).

Definition get_asset_by_song_and_type
    (choose : list MediaAsset.t → nat)
    (db : DB) (song_id : uuid) (asset_type : AssetType.t)
  : option MediaAsset.t :=
  Sql.first choose
    (filter (λ a, MediaAsset.song_id a = song_id
                  ∧ MediaAsset.type a = AssetType.value asset_type)
            (media_assets db)).

Definition create_asset
    (db : DB) (song_id : uuid) (asset_type : AssetType.t) (path : string)
    (file_size duration codec bitrate resolution : PyVal)
  : DB * MediaAsset.t :=
  let asset :=
    MediaAsset.make song_id (AssetType.value asset_type) path
                    file_size duration codec bitrate resolution in
  (with_media_assets (media_assets db ++ [asset])%list db, asset).

Definition create_media_assets_for_song
    (db : DB) (song_id : uuid)
    (video_path audio_original_path audio_inst_path : string)
    (video_metadata audio_original_metadata audio_inst_metadata
       : option (gmap string PyVal))
  : DB * list MediaAsset.t :=
  let video_metadata := default ∅ video_metadata in
  let audio_original_metadata := default ∅ audio_original_metadata in
  let audio_inst_metadata := default ∅ audio_inst_metadata in
  let assets : list MediaAsset.t := [] in
  let '(db, video_asset) :=
    create_asset db song_id AssetType.VIDEO_MASTER video_path
      (dict_get video_metadata "file_size")
      (dict_get video_metadata "duration")
      (dict_get video_metadata "codec")
      (dict_get video_metadata "bitrate")
      (dict_get video_metadata "resolution") in
  let assets := (assets ++ [video_asset])%list in
  let '(db, audio_original_asset) :=
    create_asset db song_id AssetType.AUDIO_ORIGINAL audio_original_path
      (dict_get audio_original_metadata "file_size")
      (dict_get audio_original_metadata "duration")
      (dict_get audio_original_metadata "codec")
      (dict_get audio_original_metadata "bitrate")
      PNone in
  let assets := (assets ++ [audio_original_asset])%list in
  let '(db, audio_inst_asset) :=
    create_asset db song_id AssetType.AUDIO_INST audio_inst_path
      (dict_get audio_inst_metadata "file_size")
      (dict_get audio_inst_metadata "duration")
      (dict_get audio_inst_metadata "codec")
      (dict_get audio_inst_metadata "bitrate")
      PNone in
  let assets := (assets ++ [audio_inst_asset])%list in
  (db, assets).

Definition delete_assets_by_song (db : DB) (song_id : uuid) : DB * nat :=
  let count := length (get_assets_by_song db song_id) in
  (with_media_assets
     (filter (λ a, MediaAsset.song_id a ≠ song_id) (media_assets db)) db,
   count).

Definition required_types : list string :=
  [ AssetType.value AssetType.VIDEO_MASTER;
    AssetType.value AssetType.AUDIO_ORIGINAL;
    AssetType.value AssetType.AUDIO_INST ].

Definition has_required_assets (db : DB) (song_id : uuid) : bool :=
  let existing_types :=
    MediaAsset.type <$>
      filter (λ a, MediaAsset.song_id a = song_id
                   ∧ MediaAsset.type a ∈ required_types)
             (media_assets db) in
  let existing_type_set : gset string := list_to_set existing_types in
  forallb (λ rt, bool_decide (rt ∈ existing_type_set)) required_types.

End SyncMediaAssetService.

(** ** [app/services/media_asset_service.py] *)

Module MediaAssetService.

Definition get_assets_by_song (db : DB) (song_id : uuid) : list MediaAsset.t :=
  filter (λ a, MediaAsset.song_id a = song_id) (media_assets db).

Definition get_asset_by_song_and_type
    (db : DB) (song_id : uuid) (asset_type : AssetType.t)
  : Sql.Error + option MediaAsset.t :=
  Sql.scalar_one_or_none
    (filter (λ a, MediaAsset.song_id a = song_id
                  ∧ MediaAsset.type a = AssetType.value asset_type)
            (media_assets db)).

End MediaAssetService.

(** ** [worker/tasks/process_song.py] *)

Module ProcessSong.

(** The library functions the task calls: [uuid.UUID] on a string (the
    message of its [ValueError] when the string is not a UUID) and the four
    [os.path] functions. *)
Record Lib : Type := mkLib {
  UUID : string → string + uuid;
  dirname : string → string;
  basename : string → string;
  splitext : string → string * string;
  join : list string → string
}.

(** What can be raised inside the task: the soft time limit of Celery, or any
    other [Exception], of which only [str(e)] is used. *)
Inductive Exc : Type :=
  | SoftTimeLimitExceeded
  | Exception (str_e : string).

(** What the environment does during one execution of the task: for each
    place where the database or a processing step may raise, whether it
    does.  [in_create_assets] and [in_mark_failed] are raised inside a
    [try] that catches every [Exception], so only their occurrence counts.

    Each [with get_db_session()] block is one transaction: it is committed
    when the block is left and rolled back when something is raised inside
    it.  A commit writes the attributes that were assigned ([Session]
    above); the assignments of [song.status] in steps 1 and 6 are written as
    they are. *)
Record Faults : Type := mkFaults {
  in_step1 : option Exc;
  in_pipeline : option Exc;
  in_create_assets : bool;
  in_step6 : option Exc;
  in_mark_failed : bool
}.

Definition no_faults : Faults :=
  {| in_step1 := None; in_pipeline := None; in_create_assets := false;
     in_step6 := None; in_mark_failed := false |}.

Record OutputPaths : Type := mkOutputPaths {
  video_master : string;
  audio_original : string;
  audio_inst : string;
  audio_vocal : string;
  lyrics_vtt : string
}.

(** The dictionary the task returns. *)
Inductive TaskResult : Type :=
  | Processed (song_id status : string) (assets_created : bool)
              (output_paths : OutputPaths) (message : string)
  | NotProcessed (song_id error : string).

Definition success (r : TaskResult) : bool :=
  match r with
  | Processed _ _ _ _ _ => true
  | NotProcessed _ _ => false
  end.

(** One execution of the task either returns its dictionary or lets an
    exception escape to Celery. *)
Inductive Outcome : Type :=
  | Returned (r : TaskResult)
  | Raised (e : Exc).

Definition _generate_output_paths (lib : Lib) (song_id file_path : string)
  : OutputPaths :=
  let base_dir := dirname lib file_path in
  let base_name := fst (splitext lib (basename lib file_path)) in
  let output_dir := join lib [base_dir; "processed"; song_id] in
  {| video_master := file_path;
     audio_original := join lib [output_dir; base_name ++ "_original.mp3"];
     audio_inst := join lib [output_dir; base_name ++ "_inst.mp3"];
     audio_vocal := join lib [output_dir; base_name ++ "_vocal.mp3"];
     lyrics_vtt := join lib [output_dir; base_name ++ ".vtt"] |}.

(** The session of [_create_media_assets] is rolled back when anything is
    raised inside it, and the exception is swallowed. *)
Definition _create_media_assets
    (lib : Lib) (raises : bool) (db : DB) (song_id : string)
    (video_path audio_original_path audio_inst_path : string)
    (video_metadata audio_original_metadata audio_inst_metadata
       : option (gmap string PyVal))
  : DB * bool :=
  if raises then (db, false)
  else
    match UUID lib song_id with
    | inl _ => (db, false)
    | inr id =>
        let '(db', assets) :=
          SyncMediaAssetService.create_media_assets_for_song
            db id video_path audio_original_path audio_inst_path
            video_metadata audio_original_metadata audio_inst_metadata in
        (db', true)
    end.

(** The session of [_mark_song_failed] is rolled back when anything is
    raised inside it, and the exception is swallowed.  The status is
    assigned; [meta_json] is assigned only when it is [None], and the entry
    under [error] is stored in the dictionary the object holds. *)
Definition _mark_song_failed
    (lib : Lib) (raises : bool) (db : DB) (song_id error_message : string)
  : DB :=
  if raises then db
  else
    match UUID lib song_id with
    | inl _ => db
    | inr id =>
        match songs db !! id with
        | Some row =>
            let song := Session.load row in
            let song :=
              Session.assign_status (SongStatus.value SongStatus.FAILED)
                                    song in
            let song :=
              match Song.meta_json (Session.obj song) with
              | None => Session.assign_meta_json (Some ∅) song
              | Some _ => song
              end in
            let song :=
              Session.setitem_meta_json "error" (PStr error_message) song in
            with_songs (<[id := Session.commit row song]> (songs db)) db
        | None => db
        end
    end.

(** The body of the [try] of [process_song_task]: the database it leaves,
    and either the exception that leaves the body or the value returned. *)
Definition process_song_body
    (lib : Lib) (faults : Faults) (db : DB) (song_id file_path : string)
  : DB * (Exc + TaskResult) :=
  match in_step1 faults with
  | Some e => (db, inl e)
  | None =>
  match UUID lib song_id with
  | inl msg => (db, inl (Exception msg))
  | inr id =>
  match songs db !! id with
  | None => (db, inr (NotProcessed song_id "Song not found"))
  | Some song =>
      let db :=
        with_songs
          (<[id := Song.set_status
                     (SongStatus.value SongStatus.PROCESSING) song]>
             (songs db)) db in
      let output_paths := _generate_output_paths lib song_id file_path in
      match in_pipeline faults with
      | Some e => (db, inl e)
      | None =>
          let '(db, assets_created) :=
            _create_media_assets lib (in_create_assets faults) db song_id
              (video_master output_paths)
              (audio_original output_paths)
              (audio_inst output_paths)
              (Some {[ "codec" := PStr "h264";
                       "resolution" := PStr "1920x1080" ]})
              (Some {[ "codec" := PStr "mp3"; "bitrate" := PInt 320000 ]})
              (Some {[ "codec" := PStr "mp3"; "bitrate" := PInt 320000 ]}) in
          match in_step6 faults with
          | Some e => (db, inl e)
          | None =>
              let db :=
                match songs db !! id with
                | Some song =>
                    with_songs
                      (<[id := Song.set_status
                                 (SongStatus.value SongStatus.READY) song]>
                         (songs db)) db
                | None => db
                end in
              (db, inr (Processed song_id (SongStatus.value SongStatus.READY)
                                  assets_created output_paths
                                  "Song processed successfully"))
          end
      end
  end end end.

Definition process_song_task
    (lib : Lib) (faults : Faults) (db : DB) (song_id file_path : string)
  : DB * Outcome :=
  match process_song_body lib faults db song_id file_path with
  | (db, inr result) => (db, Returned result)
  | (db, inl SoftTimeLimitExceeded) =>
      (_mark_song_failed lib (in_mark_failed faults) db song_id
                         "Processing timeout",
       Returned (NotProcessed song_id "Processing timeout"))
  | (db, inl (Exception str_e)) =>
      (_mark_song_failed lib (in_mark_failed faults) db song_id str_e,
       Raised (Exception str_e))
  end.

(** *** The retry loop of Celery

    The task is declared with [autoretry_for=(Exception,)] and
    [max_retries=3]: an execution that raises is followed by another one
    until three retries have been made; an execution that returns ends the
    run.  [env] gives the faults met by each execution, counted from 0.
    [celery_run] lists, for each execution of the run, the database it
    leaves and its outcome; between two entries the worker waits for the
    retry delay. *)
Definition max_retries : nat := 3.

Fixpoint executions
    (lib : Lib) (remaining : nat) (attempt : nat) (env : nat → Faults)
    (db : DB) (song_id file_path : string)
  : list (DB * Outcome) :=
  match remaining with
  | S remaining' =>
      let '(db', outcome) :=
        process_song_task lib (env attempt) db song_id file_path in
      (db', outcome) ::
        match outcome with
        | Raised _ =>
            executions lib remaining' (S attempt) env db' song_id file_path
        | Returned _ => []
        end
  | O => []
  end.

Definition celery_run
    (lib : Lib) (env : nat → Faults) (db : DB) (song_id file_path : string)
  : list (DB * Outcome) :=
  executions lib (S max_retries) 0 env db song_id file_path.

(** The status of a song as a client polling the database reads it. *)
Definition status_of (db : DB) (id : uuid) : option string :=
  Song.status <$> songs db !! id.

(** [song.meta_json[key]] as that client reads it. *)
Definition meta_of (db : DB) (id : uuid) (key : string) : option PyVal :=
  match songs db !! id with
  | Some song =>
      match Song.meta_json song with
      | Some meta => meta !! key
      | None => None
      end
  | None => None
  end.

End ProcessSong.

(** ** The registry and the lifecycle in the words of the specification *)

Module RegistrySpec.

Definition mandatory_kinds : gset string :=
  {[ "video_master"; "audio_original"; "audio_inst" ]}.

(** The set of kinds present among the records of a song. *)
Definition recorded_kinds (db : DB) (song_id : uuid) : gset string :=
  list_to_set
    (MediaAsset.type <$> SyncMediaAssetService.get_assets_by_song db song_id).

(** The records of one kind of a song, in row order. *)
Definition records_of_kind
    (db : DB) (song_id : uuid) (kind : AssetType.t) : list MediaAsset.t :=
  filter (λ a, MediaAsset.song_id a = song_id
               ∧ MediaAsset.type a = AssetType.value kind)
         (media_assets db).

End RegistrySpec.

Module LifecycleSpec.

Import ProcessSong.

(** Retries are transparent for song [id] in a run: at the end of every
    execution that is followed by another one, the status read from the
    database is [PROCESSING]. *)
Definition retries_transparent
    (run : list (DB * Outcome)) (id : uuid) : Prop :=
  ∀ (i : nat) (db : DB) (outcome : Outcome),
    run !! i = Some (db, outcome) →
    (S i < length run)%nat →
    status_of db id = Some (SongStatus.value SongStatus.PROCESSING).

End LifecycleSpec.

(** ** Sample data for the examples

    [lib] stands in for the library: it reads a UUID as 32 hexadecimal digits
    with optional dashes, and splits and joins paths at ['/'] and ['.']. *)

Module Sample.

Import ProcessSong.

Definition hex_value (c : ascii) : option N :=
  let n := N_of_ascii c in
  if ((48 <=? n) && (n <=? 57))%N then Some (n - 48)%N
  else if ((97 <=? n) && (n <=? 102))%N then Some (n - 87)%N
  else if ((65 <=? n) && (n <=? 70))%N then Some (n - 55)%N
  else None.

Fixpoint hex_acc (acc : N) (count : nat) (s : string) : option (N * nat) :=
  match s with
  | EmptyString => Some (acc, count)
  | String c s' =>
      if Ascii.eqb c "-" then hex_acc acc count s'
      else
        match hex_value c with
        | Some d => hex_acc (acc * 16 + d)%N (S count) s'
        | None => None
        end
  end.

Definition parse_uuid (s : string) : string + uuid :=
  match hex_acc 0%N 0%nat s with
  | Some (n, 32%nat) => inr n
  | _ => inl "badly formed hexadecimal UUID string"
  end.

(** The text before and after the last [sep] of [s]. *)
Fixpoint split_last (sep : ascii) (s : string) : option (string * string) :=
  match s with
  | EmptyString => None
  | String c s' =>
      match split_last sep s' with
      | Some (before, after) => Some (String c before, after)
      | None => if Ascii.eqb c sep then Some (EmptyString, s') else None
      end
  end.

Definition lib : Lib :=
  {| UUID := parse_uuid;
     dirname p := match split_last "/" p with Some (d, _) => d | None => "" end;
     basename p := match split_last "/" p with Some (_, b) => b | None => p end;
     splitext p :=
       match split_last "." p with
       | Some (root, ext) => (root, String "." ext)
       | None => (p, "")
       end;
     join parts := String.concat "/" parts |}.

Definition song_id : string := "00000000-0000-0000-0000-000000000001".
Definition other_id : string := "00000000-0000-0000-0000-000000000002".
Definition file_path : string := "/data/media/uploads/song.mp4".

(** One pending song that carries a [bpm] entry, and no asset. *)
Definition db : DB :=
  {| songs :=
       {[ 1%N := Song.make (SongStatus.value SongStatus.PENDING)
                           (Some {[ "bpm" := PInt 120 ]}) ]};
     media_assets := [] |}.

Definition video (path : string) : MediaAsset.t :=
  MediaAsset.make 1%N (AssetType.value AssetType.VIDEO_MASTER) path
                  PNone PNone PNone PNone PNone.

(** The registry after the video of song 1 was registered twice. *)
Definition db_two_videos : DB :=
  {| songs := songs db;
     media_assets := [video "/data/media/a.mp4"; video "/data/media/b.mp4"] |}.

(** A processing step raises an exception [e]. *)
Definition pipeline_raises (e : Exc) : Faults :=
  {| in_step1 := None; in_pipeline := Some e; in_create_assets := false;
     in_step6 := None; in_mark_failed := false |}.

(** The database raises while the asset records are created. *)
Definition create_assets_raises : Faults :=
  {| in_step1 := None; in_pipeline := None; in_create_assets := true;
     in_step6 := None; in_mark_failed := false |}.

(** The database raises while the song is set [READY]. *)
Definition step6_raises (e : Exc) : Faults :=
  {| in_step1 := None; in_pipeline := None; in_create_assets := false;
     in_step6 := Some e; in_mark_failed := false |}.

Definition connection_lost : Exc := Exception "server closed the connection".

(** A run whose first execution loses the database connection in step 6 and
    whose retry meets no fault. *)
Definition retried (attempt : nat) : Faults :=
  match attempt with
  | O => step6_raises connection_lost
  | S _ => no_faults
  end.

End Sample.

(** Equality of asset kinds is decidable. *)
#[global] Instance AssetType_eq_dec : EqDecision AssetType.t.
Proof. solve_decision. Defined.

(** ** [app/api/stream.py]: content types, file chunks and the handlers *)

Module StreamApi.

Import Stream.

(** The files of the media directory: the content of each regular file, by
    path.  [os.path.exists] is membership and [os.path.getsize] the length of
    the content. *)
Abbreviation Files := (gmap string (list Byte.byte)).

Definition exists_ (files : Files) (path : string) : bool :=
  bool_decide (is_Some (files !! path)).

Definition getsize (files : Files) (path : string) : Z :=
  match files !! path with
  | Some content => Z.of_nat (length content)
  | None => 0
  end.

(** [f.read(size)] on a binary file at position [pos]: at most [size]
    bytes, fewer only at the end of the file, and everything up to the end
    of the file when [size] is negative. *)
Definition read (content : list Byte.byte) (pos : nat) (size : Z)
  : list Byte.byte :=
  if size <? 0 then drop pos content
  else take (Z.to_nat size) (drop pos content).

Definition MIME_TYPES : gmap string string :=
  list_to_map
    [ (".mp4", "video/mp4");
      (".webm", "video/webm");
      (".mkv", "video/x-matroska");
      (".avi", "video/x-msvideo");
      (".mov", "video/quicktime");
      (".mp3", "audio/mpeg");
      (".wav", "audio/wav");
      (".flac", "audio/flac");
      (".aac", "audio/aac");
      (".ogg", "audio/ogg");
      (".m4a", "audio/mp4") ].

(** [lower] is [str.lower], taken from the library like [os.path]. *)
Definition get_content_type
    (lib : ProcessSong.Lib) (lower : string → string) (file_path : string)
  : string :=
  let ext := lower (ProcessSong.splitext lib file_path).2 in
  default "application/octet-stream" (MIME_TYPES !! ext).

Inductive IOError : Type :=
  | FileNotFoundError
  | InvalidSeek.

(** The [while] loop of [file_iterator], with the chunks it yields in
    order.  [fuel] bounds the number of iterations; every iteration that goes
    on takes at least one byte off [remaining], so [remaining] itself is
    enough fuel (lemma [file_iterator_loop_fuel]). *)
Fixpoint file_iterator_loop
    (fuel : nat) (content : list Byte.byte) (pos : nat)
    (remaining chunk_size : Z)
  : list (list Byte.byte) :=
  match fuel with
  | O => []
  | S fuel' =>
      if remaining >? 0 then
        let read_size := Z.min chunk_size remaining in
        let data := read content pos read_size in
        match data with
        | [] => []
        | _ :: _ =>
            data ::
              file_iterator_loop fuel' content (pos + length data)%nat
                (remaining - Z.of_nat (length data)) chunk_size
        end
      else []
  end.

(** The chunks the generator yields, or what it raises when it is first
    advanced: [open] on a missing file, [seek] on a negative offset. *)
Definition file_iterator
    (files : Files) (file_path : string) (start end_ chunk_size : Z)
  : IOError + list (list Byte.byte) :=
  match files !! file_path with
  | None => inl FileNotFoundError
  | Some content =>
      if start <? 0 then inl InvalidSeek
      else
        let remaining := end_ - start + 1 in
        inr (file_iterator_loop (Z.to_nat remaining) content (Z.to_nat start)
                                remaining chunk_size)
  end.

Definition default_chunk_size : Z := 8192.

(** [str(e)] for the three errors of [parse_range_header]. *)
Definition str_ValueError (e : ValueError) : string :=
  match e with
  | InvalidRangeHeaderFormat range_header =>
      "Invalid Range header format: " ++ range_header
  | BothStartAndEndEmpty => "Both start and end cannot be empty"
  | InvalidRange start end_ =>
      "Invalid range: start (" ++ Py.str start ++ ") > end ("
        ++ Py.str end_ ++ ")"
  end.

Module HTTPException.
Record t : Type := make {
  status_code : Z;
  detail : string;
  headers : list (string * string)
}.
End HTTPException.

(** A [StreamingResponse] with the generator it was given, here the chunks
    that generator yields. *)
Module StreamingResponse.
Record t : Type := make {
  content : IOError + list (list Byte.byte);
  status_code : Z;
  headers : list (string * string);
  media_type : string
}.
End StreamingResponse.

(** A plain [Response]; its status code is 200 when none is given. *)
Module Response.
Record t : Type := make {
  content : list Byte.byte;
  status_code : Z;
  headers : list (string * string)
}.
End Response.

(** [d.get(key)] on the headers, a dictionary in insertion order. *)
Fixpoint header (headers : list (string * string)) (key : string)
  : option string :=
  match headers with
  | [] => None
  | (k, v) :: rest => if String.eqb k key then Some v else header rest key
  end.

(** [get_media_asset]: the row of [media_assets] with that primary key.
    [assets] is the table by primary key. *)
Definition get_media_asset
    (assets : gmap uuid MediaAsset.t) (asset_id : uuid)
  : option MediaAsset.t :=
  assets !! asset_id.

(** [range_header] is [request.headers.get("Range")]. *)
Definition stream_media
    (lib : ProcessSong.Lib) (lower : string → string) (MEDIA_ROOT : string)
    (assets : gmap uuid MediaAsset.t) (files : Files)
    (asset_id : uuid) (range_header : option string)
  : HTTPException.t + StreamingResponse.t :=
  match get_media_asset assets asset_id with
  | None => inl (HTTPException.make 404 "媒体资产不存在" [])
  | Some asset =>
      let file_path :=
        ProcessSong.join lib [MEDIA_ROOT; MediaAsset.path asset] in
      if negb (exists_ files file_path) then
        inl (HTTPException.make 404 "媒体文件不存在" [])
      else
        let file_size := getsize files file_path in
        let content_type := get_content_type lib lower file_path in
        match range_header with
        | Some (String c rest as range_header) =>
            match parse_range_header range_header file_size with
            | inl e =>
                inl (HTTPException.make 416 (str_ValueError e)
                       [("Content-Range", "bytes */" ++ Py.str file_size)])
            | inr (start, end_) =>
                let content_length := end_ - start + 1 in
                let headers :=
                  [ ("Content-Range",
                     "bytes " ++ Py.str start ++ "-" ++ Py.str end_
                       ++ "/" ++ Py.str file_size);
                    ("Accept-Ranges", "bytes");
                    ("Content-Length", Py.str content_length);
                    ("Content-Type", content_type) ] in
                inr (StreamingResponse.make
                       (file_iterator files file_path start end_
                                      default_chunk_size)
                       206 headers content_type)
            end
        | _ =>
            let headers :=
              [ ("Accept-Ranges", "bytes");
                ("Content-Length", Py.str file_size);
                ("Content-Type", content_type) ] in
            inr (StreamingResponse.make
                   (file_iterator files file_path 0 (file_size - 1)
                                  default_chunk_size)
                   200 headers content_type)
        end
  end.

Definition head_media
    (lib : ProcessSong.Lib) (lower : string → string) (MEDIA_ROOT : string)
    (assets : gmap uuid MediaAsset.t) (files : Files) (asset_id : uuid)
  : HTTPException.t + Response.t :=
  match get_media_asset assets asset_id with
  | None => inl (HTTPException.make 404 "媒体资产不存在" [])
  | Some asset =>
      let file_path :=
        ProcessSong.join lib [MEDIA_ROOT; MediaAsset.path asset] in
      if negb (exists_ files file_path) then
        inl (HTTPException.make 404 "媒体文件不存在" [])
      else
        let file_size := getsize files file_path in
        let content_type := get_content_type lib lower file_path in
        inr (Response.make []
               200
               [ ("Accept-Ranges", "bytes");
                 ("Content-Length", Py.str file_size);
                 ("Content-Type", content_type) ])
  end.

(** The three lookups by kind of the API.  An exception of the service
    leaves the handler as it is. *)
Definition get_song_asset
    (kind : AssetType.t) (detail : string) (db : DB) (song_id : uuid)
  : Sql.Error + (HTTPException.t + MediaAsset.t) :=
  match MediaAssetService.get_asset_by_song_and_type db song_id kind with
  | inl e => inl e
  | inr None => inr (inl (HTTPException.make 404 detail []))
  | inr (Some asset) => inr (inr asset)
  end.

Definition get_song_video (db : DB) (song_id : uuid) :=
  get_song_asset AssetType.VIDEO_MASTER "视频资产不存在" db song_id.

Definition get_song_original_audio (db : DB) (song_id : uuid) :=
  get_song_asset AssetType.AUDIO_ORIGINAL "原唱音轨不存在" db song_id.

Definition get_song_instrumental_audio (db : DB) (song_id : uuid) :=
  get_song_asset AssetType.AUDIO_INST "伴奏音轨不存在" db song_id.

Definition get_song_assets (db : DB) (song_id : uuid) : list MediaAsset.t :=
  MediaAssetService.get_assets_by_song db song_id.

End StreamApi.

(** ** More sample data *)

Module Sample2.

Definition lower_ascii (c : ascii) : ascii :=
  let n := nat_of_ascii c in
  if ((65 <=? n) && (n <=? 90))%nat then ascii_of_nat (n + 32) else c.

(** Stands in for [str.lower] on ASCII text. *)
Fixpoint lower (s : string) : string :=
  match s with
  | EmptyString => EmptyString
  | String c s' => String (lower_ascii c) (lower s')
  end.

Definition MEDIA_ROOT : string := "/data/media".

Definition content : list Byte.byte :=
  list_byte_of_string "0123456789abcdefghijklmnopqrstuvwxyz".

Definition assets : gmap uuid MediaAsset.t :=
  {[ 7%N := Sample.video "songs/a.MP4";
     8%N := Sample.video "songs/missing.mp4" ]}.

Definition files : StreamApi.Files :=
  {[ "/data/media/songs/a.MP4" := content;
     "/data/media/songs/empty.mp3" := [] ]}.

(** A song that is being processed and whose [meta_json] is NULL. *)
Definition db_no_meta : DB :=
  {| songs :=
       {[ 1%N := Song.make (SongStatus.value SongStatus.PROCESSING) None ]};
     media_assets := [] |}.

(** The soft time limit is hit during the processing steps. *)
Definition timed_out (attempt : nat) : ProcessSong.Faults :=
  Sample.pipeline_raises ProcessSong.SoftTimeLimitExceeded.

(** No fault in any execution. *)
Definition calm (attempt : nat) : ProcessSong.Faults := ProcessSong.no_faults.

(** A processing step raises [e], and so does the session of
    [_mark_song_failed]. *)
Definition unrecorded (e : ProcessSong.Exc) : ProcessSong.Faults :=
  {| ProcessSong.in_step1 := None;
     ProcessSong.in_pipeline := Some e;
     ProcessSong.in_create_assets := false;
     ProcessSong.in_step6 := None;
     ProcessSong.in_mark_failed := true |}.

End Sample2.

(** * Facts about the Python primitives *)

Section PyFacts.

Import Py.

Lemma strip_prefix_Some lit s r :
  strip_prefix lit s = Some r → s = lit ++ r.
Proof.
  revert s. induction lit as [|a lit IH]; intros s; simpl.
  - by intros [= ->].
  - destruct s as [|b s]; [done|].
    destruct (Ascii.eqb_spec a b) as [->|]; [|done].
    intros H%IH. by rewrite H.
Qed.

Lemma strip_prefix_app lit r : strip_prefix lit (lit ++ r) = Some r.
Proof.
  induction lit as [|a lit IH]; simpl; [by destruct r|].
  by rewrite Ascii.eqb_refl.
Qed.

Lemma span_digits_app ds rest :
  all_digits ds = true → starts_with_digit rest = false →
  span_digits (ds ++ rest) = (ds, rest).
Proof.
  intros Hds Hrest. induction ds as [|c ds IH]; simpl in *.
  - destruct rest as [|c rest]; simpl in *; [done|]. by rewrite Hrest.
  - apply andb_prop in Hds as [Hc Hds]. by rewrite Hc, IH.
Qed.

Lemma span_digits_inv s ds rest :
  span_digits s = (ds, rest) →
  s = ds ++ rest ∧ all_digits ds = true ∧ starts_with_digit rest = false.
Proof.
  revert ds rest. induction s as [|c s IH]; intros ds rest; simpl.
  - by intros [= <- <-].
  - destruct (is_digit c) eqn:Hc.
    + destruct (span_digits s) as [ds' rest'] eqn:Hs.
      intros [= <- <-]. destruct (IH _ _ eq_refl) as (-> & Hds & Hrest).
      simpl. by rewrite Hc, Hds.
    + intros [= <- <-]. simpl. by rewrite Hc.
Qed.

Lemma is_digit_value c : is_digit c = true → 0 ≤ digit_value c ≤ 9.
Proof.
  destruct c as [[|] [|] [|] [|] [|] [|] [|] [|]]; simpl; try discriminate;
    intros _; vm_compute; split; discriminate.
Qed.

Lemma int_acc_nonneg s acc :
  all_digits s = true → 0 ≤ acc → 0 ≤ int_acc acc s.
Proof.
  revert acc. induction s as [|c s IH]; intros acc Hs Hacc; simpl in *; [done|].
  apply andb_prop in Hs as [Hc%is_digit_value Hs]. apply IH; [done|lia].
Qed.

Lemma int_nonneg s : all_digits s = true → 0 ≤ int s.
Proof. intros Hs. by apply int_acc_nonneg. Qed.

(** Decimal numerals, as the standard library prints them, are runs of
    digits, and [int] reads them back. *)
Lemma all_digits_string_of_uint d :
  all_digits (NilEmpty.string_of_uint d) = true.
Proof. induction d; simpl; done. Qed.

Lemma int_acc_string_of_uint d d' :
  int_acc (Z.of_N (Unsigned.of_lu d')) (NilEmpty.string_of_uint d)
  = Z.of_N (Unsigned.of_lu (Decimal.revapp d d')).
Proof.
  revert d'. induction d as [|d IH|d IH|d IH|d IH|d IH|d IH|d IH|d IH|d IH|d IH];
    intros d'; simpl; [done|..];
    rewrite <- IH; f_equal; cbn [Unsigned.of_lu];
    change (digit_value _) with 0 || change (digit_value _) with 1
    || change (digit_value _) with 2 || change (digit_value _) with 3
    || change (digit_value _) with 4 || change (digit_value _) with 5
    || change (digit_value _) with 6 || change (digit_value _) with 7
    || change (digit_value _) with 8 || change (digit_value _) with 9; lia.
Qed.

Lemma int_string_of_uint d :
  int (NilEmpty.string_of_uint d) = Z.of_N (N.of_uint d).
Proof.
  unfold int, N.of_uint. rewrite Unsigned.of_uint_alt.
  apply (int_acc_string_of_uint d Decimal.Nil).
Qed.

Lemma str_nonneg n :
  0 ≤ n → str n = NilEmpty.string_of_uint (N.to_uint (Z.to_N n))
          ∧ N.to_uint (Z.to_N n) ≠ Decimal.Nil.
Proof.
  intros Hn. destruct n as [|p|p]; [done| |lia].
  pose proof (Unsigned.to_uint_nonnil p) as Hnil.
  unfold str. simpl. split; [|done]. by destruct (Pos.to_uint p).
Qed.

Lemma all_digits_str n : 0 ≤ n → all_digits (str n) = true.
Proof.
  intros [-> _]%str_nonneg. apply all_digits_string_of_uint.
Qed.

Lemma str_nonempty n : 0 ≤ n → str n ≠ "".
Proof.
  intros [-> Hnil]%str_nonneg. by destruct (N.to_uint (Z.to_N n)).
Qed.

Lemma int_str n : 0 ≤ n → int (str n) = n.
Proof.
  intros Hn. destruct (str_nonneg n Hn) as [-> _].
  rewrite int_string_of_uint, DecimalN.Unsigned.of_to. lia.
Qed.

End PyFacts.

(** * [parse_range_header] *)

Section RangeFacts.

Import Py Stream RangeSpec.

(** The regular expression matches exactly the strings that start with the
    range form, and its groups are the two runs of digits. *)
Lemma match_range_leading s a b :
  match_range s = Some (a, b) ↔ leading_form s a b.
Proof.
  unfold match_range, leading_form. split.
  - destruct (strip_prefix "bytes=" s) as [r|] eqn:Hpre; [|done].
    apply strip_prefix_Some in Hpre as ->.
    destruct (span_digits r) as [a' r1] eqn:Ha.
    apply span_digits_inv in Ha as (-> & Ha & _).
    destruct r1 as [|c r2]; [done|].
    destruct (Ascii.eqb_spec c "-"%char) as [->|Hc].
    + destruct (span_digits r2) as [b' rest] eqn:Hb.
      apply span_digits_inv in Hb as (-> & Hb & Hrest).
      intros [= <- <-]. by exists rest.
    + destruct c as [[|] [|] [|] [|] [|] [|] [|] [|]]; done.
  - intros (rest & -> & Ha & Hb & Hrest).
    change ("bytes=" ++ a ++ "-" ++ b ++ rest)
      with ("bytes=" ++ (a ++ String "-" (b ++ rest))).
    rewrite strip_prefix_app, (span_digits_app a) by done.
    by rewrite (span_digits_app b).
Qed.

Lemma leading_form_unique s a b a' b' :
  leading_form s a b → leading_form s a' b' → a = a' ∧ b = b'.
Proof.
  intros H1%match_range_leading H2%match_range_leading.
  rewrite H1 in H2. by injection H2.
Qed.

Lemma eqb_empty_false s : s ≠ "" → String.eqb s "" = false.
Proof. by destruct s. Qed.

Lemma floor_at_zero (start : Z) :
  (if start <? 0 then 0 else start) = Z.max 0 start.
Proof. destruct (Z.ltb_spec start 0); lia. Qed.

Lemma cap_at_last (end_ file_size : Z) :
  (if end_ >=? file_size then file_size - 1 else end_)
  = Z.min end_ (file_size - 1).
Proof. rewrite Z.geb_leb. destruct (Z.leb_spec file_size end_); lia. Qed.

(** Once the groups are known and not both empty, the parser computes the
    clamped interval of the specification and rejects it when it is empty. *)
Lemma parse_range_header_matched s fs a b :
  match_range s = Some (a, b) → a ≠ "" ∨ b ≠ "" →
  parse_range_header s fs
  = (let '(lo, hi) := clamp (interval a b fs) fs in
     if lo >? hi then inl (InvalidRange lo hi) else inr (lo, hi)).
Proof.
  intros Hm Hne. unfold parse_range_header, clamp, interval. rewrite Hm.
  destruct (String.eqb_spec a "") as [->|Ha];
    destruct (String.eqb_spec b "") as [->|Hb]; simpl;
    [by destruct Hne|..]; by rewrite floor_at_zero, cap_at_last.
Qed.

Lemma parse_range_header_unmatched s fs :
  match_range s = None →
  parse_range_header s fs = inl (InvalidRangeHeaderFormat s).
Proof. intros Hm. unfold parse_range_header. by rewrite Hm. Qed.

Lemma parse_range_header_both_empty s fs :
  match_range s = Some ("", "") →
  parse_range_header s fs = inl BothStartAndEndEmpty.
Proof. intros Hm. unfold parse_range_header. by rewrite Hm. Qed.

Lemma append_empty_r (s : string) : s ++ "" = s.
Proof.
  induction s as [|c s IH]; [done|].
  change (String c s ++ "") with (String c (s ++ "")). by rewrite IH.
Qed.

Lemma three_forms_leading s :
  three_forms s → ∃ a b, leading_form s a b ∧ s = "bytes=" ++ a ++ "-" ++ b.
Proof.
  intros (a & b & Hs & Ha & Hb & _). exists a, b. split; [|done].
  exists "". by rewrite append_empty_r.
Qed.

(** C4 (as stated, refuted): the header [bytes=0-99xyz] has none of the
    three textual forms, and yet it is parsed, as the range 0-99 of a file of
    10000 bytes: the regular expression is matched at the start of the
    header and what follows the second group is not examined. *)
Lemma parse_range_header_trailing_text :
  ¬ three_forms "bytes=0-99xyz"
  ∧ parse_range_header "bytes=0-99xyz" 10000 = inr (0, 99).
Proof.
  split; [|reflexivity].
  intros (a & b & Hlead & Hs)%three_forms_leading.
  assert (leading_form "bytes=0-99xyz" "0" "99") as Hconcrete
    by by apply match_range_leading.
  destruct (leading_form_unique _ _ _ _ _ Hlead Hconcrete) as [-> ->].
  discriminate Hs.
Qed.

(** C4 (amended): a header that does not start with [bytes=<a>-<b>], [a]
    and [b] runs of digits that are not both empty and [b] the longest such
    run, fails as malformed; a header that starts so and whose clamped
    interval has start > end fails as unsatisfiable; and a range is returned
    only for a header that starts so, and is then its clamped interval.
    What follows [b] in the header plays no role. *)
Theorem parse_range_header_outcomes (s : string) (file_size : Z) :
  ((¬ ∃ a b, leading_form s a b ∧ (a ≠ "" ∨ b ≠ "")) →
     ∃ e, parse_range_header s file_size = inl e ∧ is_malformed e = true)
  ∧ (∀ a b lo hi,
       leading_form s a b → a ≠ "" ∨ b ≠ "" →
       clamp (interval a b file_size) file_size = (lo, hi) → lo > hi →
       ∃ e, parse_range_header s file_size = inl e
            ∧ is_unsatisfiable e = true)
  ∧ (∀ lo hi,
       parse_range_header s file_size = inr (lo, hi) →
       ∃ a b, leading_form s a b ∧ (a ≠ "" ∨ b ≠ "")
              ∧ clamp (interval a b file_size) file_size = (lo, hi)
              ∧ lo ≤ hi).
Proof.
  split; [|split].
  - intros Hnone. destruct (match_range s) as [[a b]|] eqn:Hm.
    + destruct (decide (a = "" ∧ b = "")) as [[-> ->]|Hne].
      * exists BothStartAndEndEmpty.
        by rewrite parse_range_header_both_empty.
      * destruct Hnone. exists a, b. split; [by apply match_range_leading|].
        destruct (decide (a = "")); [right|left]; naive_solver.
    + exists (InvalidRangeHeaderFormat s).
      by rewrite parse_range_header_unmatched.
  - intros a b lo hi Hlead%match_range_leading Hne Hclamp Hgt.
    rewrite (parse_range_header_matched _ _ _ _ Hlead Hne), Hclamp.
    destruct (Z.gtb_spec lo hi); [|lia]. by eexists.
  - intros lo hi Hparse. destruct (match_range s) as [[a b]|] eqn:Hm.
    + destruct (decide (a = "" ∧ b = "")) as [[-> ->]|Hne].
      * by rewrite parse_range_header_both_empty in Hparse.
      * assert (a ≠ "" ∨ b ≠ "") as Hne'
          by (destruct (decide (a = "")); [right|left]; naive_solver).
        rewrite (parse_range_header_matched _ _ _ _ Hm Hne') in Hparse.
        exists a, b. split; [by apply match_range_leading|].
        split; [done|].
        destruct (clamp (interval a b file_size) file_size) as [lo' hi'].
        destruct (Z.gtb_spec lo' hi'); [done|].
        injection Hparse as <- <-. split; [done|lia].
    + by rewrite parse_range_header_unmatched in Hparse.
Qed.

(** C5: for a file of at least one byte and 0 <= start <= end with
    start < file_size, the header [bytes={start}-{end}] is parsed as
    (start, min(end, file_size - 1)). *)
Theorem parse_range_header_start_end (file_size start end_ : Z) :
  1 ≤ file_size → 0 ≤ start ≤ end_ → start < file_size →
  parse_range_header (range_of start end_) file_size
  = inr (start, Z.min end_ (file_size - 1)).
Proof.
  intros Hsize [Hstart Hle] Hlt.
  assert (match_range (range_of start end_) = Some (str start, str end_))
    as Hm.
  { apply match_range_leading. exists "". rewrite append_empty_r.
    split; [done|]. split; [by apply all_digits_str|].
    split; [apply all_digits_str; lia|done]. }
  rewrite (parse_range_header_matched _ _ _ _ Hm)
    by (left; by apply str_nonempty).
  unfold clamp, interval.
  rewrite !eqb_empty_false by (apply str_nonempty; lia).
  rewrite !int_str by lia. simpl.
  destruct (Z.gtb_spec (Z.max 0 start) (Z.min end_ (file_size - 1))); [lia|].
  f_equal. f_equal. lia.
Qed.

Lemma parse_range_header_start_end_witness :
  (1 ≤ 10000 ∧ 0 ≤ 0 ≤ 99999 ∧ 0 < 10000)
  ∧ parse_range_header (range_of 0 99999) 10000
    = inr (0, Z.min 99999 (10000 - 1)).
Proof.
  split; [lia|]. apply (parse_range_header_start_end 10000 0 99999); lia.
Defined.

(** C6: for a file of at least one byte and a suffix length of at least
    one, the header [bytes=-{suffix}] is parsed as
    (max(0, file_size - suffix), file_size - 1). *)
Theorem parse_range_header_suffix (file_size suffix : Z) :
  1 ≤ file_size → 1 ≤ suffix →
  parse_range_header (range_suffix suffix) file_size
  = inr (Z.max 0 (file_size - suffix), file_size - 1).
Proof.
  intros Hsize Hsuffix.
  assert (match_range (range_suffix suffix) = Some ("", str suffix)) as Hm.
  { apply match_range_leading. exists "". rewrite append_empty_r.
    split; [done|]. split; [done|].
    split; [apply all_digits_str; lia|done]. }
  rewrite (parse_range_header_matched _ _ _ _ Hm)
    by (right; apply str_nonempty; lia).
  unfold clamp, interval. rewrite int_str by lia. simpl.
  destruct (Z.gtb_spec (Z.max 0 (Z.max 0 (file_size - suffix)))
                       (Z.min (file_size - 1) (file_size - 1))); [lia|].
  f_equal. f_equal; lia.
Qed.

Lemma parse_range_header_suffix_witness :
  (1 ≤ 10000 ∧ 1 ≤ 500)
  ∧ parse_range_header (range_suffix 500) 10000
    = inr (Z.max 0 (10000 - 500), 10000 - 1).
Proof.
  split; [lia|]. apply (parse_range_header_suffix 10000 500); lia.
Defined.

(** The open-ended form: [bytes={start}-] runs to the last byte. *)
Lemma parse_range_header_open_end (file_size start : Z) :
  0 ≤ start → start < file_size →
  parse_range_header (range_from start) file_size
  = inr (start, file_size - 1).
Proof.
  intros Hstart Hlt.
  assert (match_range (range_from start) = Some (str start, "")) as Hm.
  { apply match_range_leading. exists "".
    split; [done|]. split; [by apply all_digits_str|done]. }
  rewrite (parse_range_header_matched _ _ _ _ Hm)
    by (left; by apply str_nonempty).
  unfold clamp, interval.
  rewrite eqb_empty_false by (by apply str_nonempty).
  rewrite int_str by done. simpl.
  destruct (Z.gtb_spec (Z.max 0 start)
                       (Z.min (file_size - 1) (file_size - 1))); [lia|].
  f_equal. f_equal; lia.
Qed.

(** The scenarios of the test suite, on a file of 10000 bytes. *)
Example range_standard :
  parse_range_header "bytes=0-1023" 10000 = inr (0, 1023).
Proof. reflexivity. Qed.

Example range_open_end :
  parse_range_header "bytes=5000-" 10000 = inr (5000, 9999).
Proof. reflexivity. Qed.

Example range_suffix_500 :
  parse_range_header "bytes=-500" 10000 = inr (9500, 9999).
Proof. reflexivity. Qed.

Example range_end_clamped :
  parse_range_header "bytes=0-99999" 10000 = inr (0, 9999).
Proof. reflexivity. Qed.

Example range_suffix_clamped :
  parse_range_header "bytes=-99999" 10000 = inr (0, 9999).
Proof. reflexivity. Qed.

Example range_invalid_format :
  parse_range_header "invalid" 10000
  = inl (InvalidRangeHeaderFormat "invalid").
Proof. reflexivity. Qed.

Example range_empty_both :
  parse_range_header "bytes=-" 10000 = inl BothStartAndEndEmpty.
Proof. reflexivity. Qed.

Example range_start_greater_than_end :
  parse_range_header "bytes=1000-500" 10000 = inl (InvalidRange 1000 500).
Proof. reflexivity. Qed.

(** C9: a range that [parse_range_header] returns for content of length
    [file_size] is a window into it: 0 <= start <= end < file_size. *)
Theorem parse_range_header_window (s : string) (file_size lo hi : Z) :
  parse_range_header s file_size = inr (lo, hi) →
  0 ≤ lo ∧ lo ≤ hi ∧ hi < file_size.
Proof.
  intros Hparse. destruct (match_range s) as [[a b]|] eqn:Hm.
  - destruct (decide (a = "" ∧ b = "")) as [[-> ->]|Hne].
    + by rewrite parse_range_header_both_empty in Hparse.
    + assert (a ≠ "" ∨ b ≠ "") as Hne'
        by (destruct (decide (a = "")); [right|left]; naive_solver).
      rewrite (parse_range_header_matched _ _ _ _ Hm Hne') in Hparse.
      unfold clamp in Hparse.
      destruct (interval a b file_size) as [lo' hi']. simpl in Hparse.
      destruct (Z.gtb_spec (Z.max 0 lo') (Z.min hi' (file_size - 1)));
        [done|].
      injection Hparse as <- <-. lia.
  - by rewrite parse_range_header_unmatched in Hparse.
Qed.

Lemma parse_range_header_window_witness :
  parse_range_header "bytes=-500" 10000 = inr (9500, 9999)
  ∧ (0 ≤ 9500 ∧ 9500 ≤ 9999 ∧ 9999 < 10000).
Proof.
  split; [reflexivity|].
  apply (parse_range_header_window "bytes=-500" 10000 9500 9999).
  reflexivity.
Defined.

End RangeFacts.

(** * The asset registry *)

Section RegistryFacts.

Import RegistrySpec.

(** The query of [has_required_assets] keeps, of the kinds of a song,
    those that are required. *)
Lemma existing_type_set_elem (db : DB) (song_id : uuid) (rt : string) :
  rt ∈ (list_to_set
          (MediaAsset.type <$>
             filter (λ a, MediaAsset.song_id a = song_id
                          ∧ MediaAsset.type a
                            ∈ SyncMediaAssetService.required_types)
                    (media_assets db)) : gset string)
  ↔ rt ∈ SyncMediaAssetService.required_types
    ∧ rt ∈ recorded_kinds db song_id.
Proof.
  unfold recorded_kinds, SyncMediaAssetService.get_assets_by_song.
  rewrite !elem_of_list_to_set, !list_elem_of_fmap.
  setoid_rewrite list_elem_of_filter. split.
  - intros (a & -> & (Hid & Hty) & Ha). eauto 6.
  - intros (Hrt & a & -> & Hid & Ha). eauto 6.
Qed.

Lemma has_required_assets_superset (db : DB) (song_id : uuid) :
  SyncMediaAssetService.has_required_assets db song_id = true
  ↔ mandatory_kinds ⊆ recorded_kinds db song_id.
Proof.
  unfold SyncMediaAssetService.has_required_assets.
  rewrite forallb_forall.
  setoid_rewrite bool_decide_eq_true.
  setoid_rewrite existing_type_set_elem.
  setoid_rewrite <- list_elem_of_In.
  unfold mandatory_kinds, SyncMediaAssetService.required_types. simpl.
  set_solver.
Qed.

Lemma recorded_kinds_elem (db : DB) (song_id : uuid) (kind : string) :
  kind ∈ recorded_kinds db song_id
  ↔ ∃ a, a ∈ media_assets db ∧ MediaAsset.song_id a = song_id
         ∧ MediaAsset.type a = kind.
Proof.
  unfold recorded_kinds, SyncMediaAssetService.get_assets_by_song.
  rewrite elem_of_list_to_set, list_elem_of_fmap.
  setoid_rewrite list_elem_of_filter. split.
  - intros (a & -> & Hid & Ha). eauto.
  - intros (a & Ha & Hid & <-). eauto.
Qed.

(** A second copy of a record adds no kind. *)
Lemma recorded_kinds_duplicate (db : DB) (song_id : uuid) (a : MediaAsset.t) :
  a ∈ media_assets db →
  recorded_kinds (with_media_assets (media_assets db ++ [a]) db) song_id
  = recorded_kinds db song_id.
Proof.
  intros Ha. apply set_eq. intros kind. rewrite !recorded_kinds_elem. simpl.
  setoid_rewrite elem_of_app. setoid_rewrite list_elem_of_singleton. split.
  - intros (a' & [Ha'| ->] & Hid & Hty); eauto.
  - intros (a' & Ha' & Hid & Hty); eauto.
Qed.

(** C7: [has_required_assets] is true exactly when the kinds recorded for
    the song include video_master, audio_original and audio_inst; it is false
    for a song without records and whenever one mandatory kind is missing,
    whatever else is recorded; and a duplicate of a record changes
    nothing. *)
Theorem has_required_assets_complete (db : DB) (song_id : uuid) :
  (SyncMediaAssetService.has_required_assets db song_id = true
   ↔ mandatory_kinds ⊆ recorded_kinds db song_id)
  ∧ (SyncMediaAssetService.get_assets_by_song db song_id = [] →
     SyncMediaAssetService.has_required_assets db song_id = false)
  ∧ (∀ kind, kind ∈ mandatory_kinds → kind ∉ recorded_kinds db song_id →
     SyncMediaAssetService.has_required_assets db song_id = false)
  ∧ (∀ a, a ∈ media_assets db →
     SyncMediaAssetService.has_required_assets
       (with_media_assets (media_assets db ++ [a]) db) song_id
     = SyncMediaAssetService.has_required_assets db song_id).
Proof.
  split; [apply has_required_assets_superset|]. split; [|split].
  - intros Hnone. apply not_true_is_false.
    rewrite has_required_assets_superset. unfold recorded_kinds, mandatory_kinds.
    rewrite Hnone. set_solver.
  - intros kind Hkind Hmissing. apply not_true_is_false.
    rewrite has_required_assets_superset. set_solver.
  - intros a Ha. apply Bool.eq_true_iff_eq.
    by rewrite !has_required_assets_superset, recorded_kinds_duplicate.
Qed.

(** One more record, a duplicate or not, never makes a complete song
    incomplete. *)
Lemma has_required_assets_append (db : DB) (song_id : uuid) (a : MediaAsset.t) :
  SyncMediaAssetService.has_required_assets db song_id = true →
  SyncMediaAssetService.has_required_assets
    (with_media_assets (media_assets db ++ [a]) db) song_id = true.
Proof.
  rewrite !has_required_assets_superset. intros Hsub kind Hkind.
  apply Hsub, recorded_kinds_elem in Hkind as (a' & Ha' & Hid & Hty).
  apply recorded_kinds_elem. exists a'. simpl. set_solver.
Qed.

(** The scenarios of the test suite: the two audio tracks alone do not
    complete a song, the three records of the task do. *)
Example incomplete_without_video :
  let db := mkDB ∅ [] in
  let db :=
    (SyncMediaAssetService.create_asset
       db 1%N AssetType.AUDIO_ORIGINAL "/media/songs/test_original.mp3"
       PNone PNone PNone PNone PNone).1 in
  let db :=
    (SyncMediaAssetService.create_asset
       db 1%N AssetType.AUDIO_INST "/media/songs/test_inst.mp3"
       PNone PNone PNone PNone PNone).1 in
  SyncMediaAssetService.has_required_assets db 1%N = false.
Proof. by vm_compute. Qed.

Example complete_after_registration :
  let db :=
    (SyncMediaAssetService.create_media_assets_for_song
       (mkDB ∅ []) 1%N "/media/songs/test_song.mp4"
       "/media/songs/processed/test_song_original.mp3"
       "/media/songs/processed/test_song_inst.mp3" None None None).1 in
  SyncMediaAssetService.has_required_assets db 1%N = true
  ∧ SyncMediaAssetService.has_required_assets db 2%N = false.
Proof. by vm_compute. Qed.

(** [Query.first()] returns one of the rows, and [None] only when there is
    none; a database that returns the rows in table order gives the head. *)
Lemma first_None {A} (choose : list A → nat) (rows : list A) :
  Sql.first choose rows = None ↔ rows = [].
Proof.
  unfold Sql.first. destruct rows as [|row rows]; [done|].
  split; [|done]. intros Hnone%lookup_ge_None.
  pose proof (Nat.mod_upper_bound (choose (row :: rows))
                (length (row :: rows))) as Hlt.
  simpl in *. lia.
Qed.

Lemma first_elem_of {A} (choose : list A → nat) (rows : list A) (row : A) :
  Sql.first choose rows = Some row → row ∈ rows.
Proof. unfold Sql.first. apply list_elem_of_lookup_2. Qed.

Lemma first_singleton {A} (choose : list A → nat) (row : A) :
  Sql.first choose [row] = Some row.
Proof.
  unfold Sql.first. change (length [row]) with 1%nat. by rewrite Nat.mod_1_r.
Qed.

Lemma first_in_table_order {A} (rows : list A) :
  Sql.first (λ _, 0%nat) rows = head rows.
Proof.
  unfold Sql.first. destruct rows as [|row rows]; [reflexivity|].
  by rewrite Nat.Div0.mod_0_l.
Qed.

Lemma sync_get_asset_by_song_and_type_first
    (choose : list MediaAsset.t → nat)
    (db : DB) (song_id : uuid) (kind : AssetType.t) :
  SyncMediaAssetService.get_asset_by_song_and_type choose db song_id kind
  = Sql.first choose (records_of_kind db song_id kind).
Proof. reflexivity. Qed.

Lemma sync_get_asset_by_song_and_type_None
    (choose : list MediaAsset.t → nat)
    (db : DB) (song_id : uuid) (kind : AssetType.t) :
  SyncMediaAssetService.get_asset_by_song_and_type choose db song_id kind
  = None
  ↔ records_of_kind db song_id kind = [].
Proof. rewrite sync_get_asset_by_song_and_type_first. apply first_None. Qed.

(** The lookup of the API raises exactly when the kind is recorded more than
    once for the song. *)
Lemma get_asset_by_song_and_type_raises
    (db : DB) (song_id : uuid) (kind : AssetType.t) :
  MediaAssetService.get_asset_by_song_and_type db song_id kind
  = inl Sql.MultipleResultsFound
  ↔ (2 ≤ length (records_of_kind db song_id kind))%nat.
Proof.
  unfold MediaAssetService.get_asset_by_song_and_type.
  fold (records_of_kind db song_id kind).
  destruct (records_of_kind db song_id kind) as [|a [|a' l]]; simpl;
    split; (done || lia).
Qed.

(** C8 (the code at the failing input): with the video of a song registered
    twice, the worker's lookup returns one of the two records, whichever
    way the database orders them (the first one when it returns the rows in
    table order), and the lookup of the API raises [MultipleResultsFound]
    where the claim has it return a record. *)
Theorem get_asset_by_song_and_type_duplicates :
  (∀ choose : list MediaAsset.t → nat,
     ∃ asset,
       SyncMediaAssetService.get_asset_by_song_and_type
         choose Sample.db_two_videos 1%N AssetType.VIDEO_MASTER
       = Some asset
       ∧ asset ∈ [Sample.video "/data/media/a.mp4";
                  Sample.video "/data/media/b.mp4"])
  ∧ SyncMediaAssetService.get_asset_by_song_and_type
      (λ _, 0%nat) Sample.db_two_videos 1%N AssetType.VIDEO_MASTER
    = Some (Sample.video "/data/media/a.mp4")
  ∧ MediaAssetService.get_asset_by_song_and_type
      Sample.db_two_videos 1%N AssetType.VIDEO_MASTER
    = inl Sql.MultipleResultsFound.
Proof.
  split; [|split; reflexivity].
  intros choose.
  destruct (SyncMediaAssetService.get_asset_by_song_and_type
              choose Sample.db_two_videos 1%N AssetType.VIDEO_MASTER)
    as [asset|] eqn:Hfirst.
  - exists asset. split; [done|]. by apply first_elem_of in Hfirst.
  - by apply sync_get_asset_by_song_and_type_None in Hfirst.
Qed.

End RegistryFacts.

(** * The processing job *)

Section LifecycleFacts.

Import ProcessSong RegistrySpec LifecycleSpec.

Implicit Types (lib : Lib) (faults : Faults) (db : DB) (id : uuid).

(** ** [_mark_song_failed] *)

(** What the commit of [_mark_song_failed] stores: the status always, and
    a [meta_json] only in place of [None]; a dictionary that was stored
    stays as it was, since the entry put under [error] is not an
    assignment. *)
Lemma mark_song_failed_written lib db song_id id song error_message :
  UUID lib song_id = inr id → songs db !! id = Some song →
  _mark_song_failed lib false db song_id error_message
  = with_songs
      (<[id := Song.make (SongStatus.value SongStatus.FAILED)
                 (match Song.meta_json song with
                  | None => Some {[ "error" := PStr error_message ]}
                  | Some meta => Some meta
                  end)]>
         (songs db)) db.
Proof.
  intros Hid Hsong. unfold _mark_song_failed. rewrite Hid, Hsong.
  destruct song as [st [meta|]]; [done|].
  unfold Session.commit. simpl. by rewrite insert_empty.
Qed.

(** The song is [FAILED]; the message is under [error] when [meta_json]
    was [None]; a [meta_json] that was a dictionary reads as before at
    every key; and nothing else in the database changes. *)
Lemma mark_song_failed_spec lib db song_id id song error_message :
  UUID lib song_id = inr id → songs db !! id = Some song →
  let db' := _mark_song_failed lib false db song_id error_message in
  status_of db' id = Some (SongStatus.value SongStatus.FAILED)
  ∧ (Song.meta_json song = None →
     meta_of db' id "error" = Some (PStr error_message))
  ∧ (is_Some (Song.meta_json song) →
     ∀ key, meta_of db' id key = meta_of db id key)
  ∧ (∀ key, key ≠ "error" → meta_of db' id key = meta_of db id key)
  ∧ (∀ id', id' ≠ id → songs db' !! id' = songs db !! id')
  ∧ media_assets db' = media_assets db.
Proof.
  intros Hid Hsong db'. subst db'.
  rewrite (mark_song_failed_written _ _ _ _ _ _ Hid Hsong).
  unfold status_of, meta_of. simpl. rewrite lookup_insert_eq, Hsong. simpl.
  split; [done|]. split; [|split; [|split; [|split; [|done]]]].
  - intros ->. by rewrite lookup_singleton_eq.
  - by intros [meta ->] key.
  - intros key Hkey. destruct (Song.meta_json song); [done|].
    by rewrite lookup_singleton_ne.
  - intros id' Hid'. by rewrite lookup_insert_ne.
Qed.

Lemma mark_song_failed_keeps_song lib raises db song_id error_message id :
  is_Some (songs db !! id) →
  is_Some (songs (_mark_song_failed lib raises db song_id error_message) !! id).
Proof.
  intros Hsome. unfold _mark_song_failed.
  destruct raises; [done|]. destruct (UUID lib song_id) as [|id']; [done|].
  destruct (songs db !! id') eqn:Hsong; [|done]. simpl.
  destruct (decide (id' = id)) as [->|Hne].
  - by rewrite lookup_insert_eq.
  - by rewrite lookup_insert_ne.
Qed.

(** ** [_create_media_assets] *)

Lemma create_media_assets_songs
    lib raises db song_id video_path original_path inst_path m1 m2 m3
    db' created :
  _create_media_assets lib raises db song_id
    video_path original_path inst_path m1 m2 m3 = (db', created) →
  songs db' = songs db.
Proof.
  unfold _create_media_assets. destruct raises; [by intros [= <- _]|].
  destruct (UUID lib song_id); by intros [= <- _].
Qed.

(** When the records are reported as created, the three mandatory kinds
    are recorded for the song. *)
Lemma create_media_assets_complete
    lib raises db song_id id video_path original_path inst_path m1 m2 m3 db' :
  UUID lib song_id = inr id →
  _create_media_assets lib raises db song_id
    video_path original_path inst_path m1 m2 m3 = (db', true) →
  SyncMediaAssetService.has_required_assets db' id = true.
Proof.
  intros Hid. unfold _create_media_assets. destruct raises; [done|].
  rewrite Hid. intros [= <-].
  apply has_required_assets_superset. intros kind Hkind.
  apply recorded_kinds_elem. simpl.
  unfold mandatory_kinds in Hkind.
  apply elem_of_union in Hkind as [[Hkind|Hkind]%elem_of_union|Hkind];
    apply elem_of_singleton in Hkind as ->;
    eexists (MediaAsset.make id _ _ _ _ _ _ _);
    (split; [|split; reflexivity]);
    rewrite !elem_of_app, !list_elem_of_singleton; eauto 10.
Qed.

(** ** [process_song_task] *)

Lemma has_required_assets_with_songs db id s :
  SyncMediaAssetService.has_required_assets (with_songs s db) id
  = SyncMediaAssetService.has_required_assets db id.
Proof. reflexivity. Qed.

Lemma lookup_insert_is_Some_keep (m : gmap uuid Song.t) id id' song :
  is_Some (m !! id) → is_Some (<[id' := song]> m !! id).
Proof.
  intros Hsome. destruct (decide (id' = id)) as [->|Hne].
  - by rewrite lookup_insert_eq.
  - by rewrite lookup_insert_ne.
Qed.

(** Destructs the body of the task along its control flow. *)
Ltac lookup_case :=
  match goal with
  | |- context [match songs ?d !! ?i with _ => _ end] =>
      destruct (songs d !! i) as [?song|] eqn:?Hsong
  end.

Ltac create_case :=
  match goal with
  | |- context [_create_media_assets ?l ?r ?d ?s ?v ?o ?i ?m1 ?m2 ?m3] =>
      destruct (_create_media_assets l r d s v o i m1 m2 m3)
        as [?db ?created] eqn:?Hcreate
  end.

Ltac body_cases lib faults song_id :=
  unfold process_song_body;
  destruct (in_step1 faults) as [?e|]; [|
  destruct (UUID lib song_id) as [?msg|?id] eqn:?Huuid; [|
  lookup_case; [
  destruct (in_pipeline faults) as [?e|]; [|
  create_case;
  destruct (in_step6 faults) as [?e|]; [| lookup_case ] ] |] ] ].

Lemma process_song_body_keeps_song lib faults db song_id file_path id :
  is_Some (songs db !! id) →
  is_Some (songs (process_song_body lib faults db song_id file_path).1 !! id).
Proof.
  intros Hsome. body_cases lib faults song_id; simpl; try done;
    try (by apply lookup_insert_is_Some_keep);
    apply create_media_assets_songs in Hcreate; rewrite ?Hcreate;
    by repeat apply lookup_insert_is_Some_keep.
Qed.

Lemma process_song_task_keeps_song lib faults db song_id file_path id :
  is_Some (songs db !! id) →
  is_Some (songs (process_song_task lib faults db song_id file_path).1 !! id).
Proof.
  intros Hsome. unfold process_song_task.
  pose proof (process_song_body_keeps_song lib faults db song_id file_path
                id Hsome) as Hbody.
  destruct (process_song_body lib faults db song_id file_path)
    as [db1 [[|str_e]|r]]; simpl in *; [| |done];
    by apply mark_song_failed_keeps_song.
Qed.

(** An execution that raises leaves the song [FAILED]. *)
Lemma process_song_task_raised lib faults db song_id file_path id db' e :
  UUID lib song_id = inr id → is_Some (songs db !! id) →
  in_mark_failed faults = false →
  process_song_task lib faults db song_id file_path = (db', Raised e) →
  ∃ str_e, e = Exception str_e
    ∧ status_of db' id = Some (SongStatus.value SongStatus.FAILED).
Proof.
  intros Hid Hsome Hmark. unfold process_song_task.
  pose proof (process_song_body_keeps_song lib faults db song_id file_path
                id Hsome) as Hbody.
  destruct (process_song_body lib faults db song_id file_path)
    as [db1 [[|str_e]|r]]; simpl in *; [done| |done].
  intros [= <- <-]. exists str_e. split; [done|].
  destruct Hbody as [song Hsong]. rewrite Hmark.
  by destruct (mark_song_failed_spec lib db1 song_id id song str_e Hid Hsong)
    as (? & _).
Qed.

(** An execution that reports the records as created leaves the song
    complete. *)
Lemma process_song_task_created_complete
    lib faults db song_id file_path id db' status paths message :
  UUID lib song_id = inr id →
  process_song_task lib faults db song_id file_path
  = (db', Returned (Processed song_id status true paths message)) →
  SyncMediaAssetService.has_required_assets db' id = true.
Proof.
  intros Hid. unfold process_song_task.
  destruct (process_song_body lib faults db song_id file_path)
    as [db1 [[|str_e]|r]] eqn:Hbody; [done|done|].
  intros [= <- ->]. revert Hbody.
  body_cases lib faults song_id; try done;
    intros ?; simplify_eq;
    rewrite ?has_required_assets_with_songs;
    by eapply create_media_assets_complete.
Qed.

(** Once the song is found and nothing escapes the body, the task sets
    the song [READY] whether or not the asset records were created. *)
Lemma process_song_task_ready_regardless
    lib faults db song_id file_path id song :
  UUID lib song_id = inr id → songs db !! id = Some song →
  in_step1 faults = None → in_pipeline faults = None →
  in_step6 faults = None →
  ∃ db' created paths,
    process_song_task lib faults db song_id file_path
    = (db', Returned (Processed song_id (SongStatus.value SongStatus.READY)
                                created paths "Song processed successfully"))
    ∧ status_of db' id = Some (SongStatus.value SongStatus.READY)
    ∧ (in_create_assets faults = true →
       created = false ∧ media_assets db' = media_assets db).
Proof.
  intros Hid Hsong H1 Hp H6.
  unfold process_song_task, process_song_body.
  rewrite H1, Hid, Hsong, Hp. create_case. rewrite H6.
  pose proof (create_media_assets_songs _ _ _ _ _ _ _ _ _ _ _ _ Hcreate)
    as Hsongs.
  simpl in Hsongs. rewrite Hsongs, lookup_insert_eq.
  eexists _, _, _. split; [reflexivity|]. split.
  - unfold status_of. simpl. by rewrite lookup_insert_eq.
  - intros Hraises. unfold _create_media_assets in Hcreate.
    rewrite Hraises in Hcreate. by injection Hcreate as <- <-.
Qed.

(** C1 (the code at the failing input): the database raises while the
    asset records of a pending song are created.  The exception is caught in
    [_create_media_assets], the task goes on, and the song ends [READY] with
    [assets_created] false and not one record in the registry, where the
    claim has it [READY] only when the mandatory kinds are recorded. *)
Theorem process_song_task_ready_without_assets :
  ∃ db' paths,
    process_song_task Sample.lib Sample.create_assets_raises Sample.db
                      Sample.song_id Sample.file_path
    = (db', Returned (Processed Sample.song_id
                                (SongStatus.value SongStatus.READY) false
                                paths "Song processed successfully"))
    ∧ status_of db' 1%N = Some (SongStatus.value SongStatus.READY)
    ∧ media_assets db' = []
    ∧ SyncMediaAssetService.has_required_assets db' 1%N = false.
Proof.
  eexists _, _. split; [vm_compute; reflexivity|]. by vm_compute.
Qed.

(** C2 (the code at the failing input): a processing step fails on a song
    whose [meta_json] is the dictionary with the one entry [bpm].
    [_mark_song_failed] assigns the status and puts the message into the
    dictionary the object holds, which the commit does not write: the song
    ends [FAILED] with [meta_json] as it was stored, so nothing is under
    [error], where the claim has a non-empty message there.  The same holds
    of the call of [_mark_song_failed] taken alone. *)
Theorem process_song_task_error_not_recorded :
  (let db' :=
     _mark_song_failed Sample.lib false Sample.db Sample.song_id
                       "UVR5 separation failed: Out of memory" in
   status_of db' 1%N = Some (SongStatus.value SongStatus.FAILED)
   ∧ meta_of db' 1%N "error" = None
   ∧ meta_of db' 1%N "bpm" = Some (PInt 120))
  ∧ ∃ db',
      process_song_task
        Sample.lib
        (Sample.pipeline_raises
           (Exception "UVR5 separation failed: Out of memory"))
        Sample.db Sample.song_id Sample.file_path
      = (db', Raised (Exception "UVR5 separation failed: Out of memory"))
      ∧ status_of db' 1%N = Some (SongStatus.value SongStatus.FAILED)
      ∧ meta_of db' 1%N "error" = None
      ∧ meta_of db' 1%N "bpm" = Some (PInt 120).
Proof.
  split; [by vm_compute|].
  eexists. split; [vm_compute; reflexivity|]. by vm_compute.
Qed.

(** ** The retry loop *)

Lemma executions_between lib n attempt (env : nat → Faults) db
    song_id file_path id (i : nat) db_i outcome :
  UUID lib song_id = inr id → is_Some (songs db !! id) →
  (∀ k, in_mark_failed (env k) = false) →
  executions lib n attempt env db song_id file_path !! i
  = Some (db_i, outcome) →
  (S i < length (executions lib n attempt env db song_id file_path))%nat →
  ∃ str_e, outcome = Raised (Exception str_e)
    ∧ status_of db_i id = Some (SongStatus.value SongStatus.FAILED).
Proof.
  intros Hid Hsome Hmark. revert attempt db i db_i outcome Hsome.
  induction n as [|n IH]; intros attempt db i db_i outcome Hsome; [done|].
  simpl.
  pose proof (process_song_task_keeps_song lib (env attempt) db
                song_id file_path id Hsome) as Hkeep.
  destruct (process_song_task lib (env attempt) db song_id file_path)
    as [db' [r|e]] eqn:Htask; simpl in *.
  - intros _ Hlen. lia.
  - destruct i as [|i]; simpl.
    + intros [= <- <-] _.
      destruct (process_song_task_raised _ _ _ _ _ _ _ _
                  Hid Hsome (Hmark attempt) Htask)
        as (str_e & -> & Hstatus).
      by exists str_e.
    + intros Hi Hlen. apply (IH (S attempt) db' i); [done|done|lia].
Qed.

(** A run makes at most one execution more than [max_retries], and every
    execution but the last one raised. *)
Lemma executions_length lib n attempt (env : nat → Faults) db
    song_id file_path :
  (length (executions lib n attempt env db song_id file_path) ≤ n)%nat.
Proof.
  revert attempt db. induction n as [|n IH]; intros attempt db; simpl; [done|].
  destruct (process_song_task lib (env attempt) db song_id file_path)
    as [db' [r|e]]; simpl; [lia|].
  specialize (IH (S attempt) db'). lia.
Qed.

(** C3 (as stated, refuted): the database connection is lost at the end of
    the first execution and the retry succeeds.  Between the two executions
    the song is [FAILED], not [PROCESSING], although the run ends [READY]. *)
Lemma retried_run_shows_failed :
  let run :=
    celery_run Sample.lib Sample.retried
               Sample.db Sample.song_id Sample.file_path in
  (∃ db1 db2 r,
     run = [(db1, Raised Sample.connection_lost); (db2, Returned r)]
     ∧ success r = true
     ∧ status_of db1 1%N = Some (SongStatus.value SongStatus.FAILED)
     ∧ status_of db2 1%N = Some (SongStatus.value SongStatus.READY))
  ∧ ¬ retries_transparent run 1%N.
Proof.
  split.
  - eexists _, _, _. split; [vm_compute; reflexivity|]. by vm_compute.
  - intros Htransparent.
    specialize (Htransparent 0%nat _ _ eq_refl).
    vm_compute in Htransparent.
    by specialize (Htransparent (le_n 2)).
Qed.

(** The retry has registered the three kinds a second time, and the lookup
    of the API now raises for this song. *)
Example retried_run_duplicates :
  ∃ db2 r,
    last (celery_run Sample.lib Sample.retried
                     Sample.db Sample.song_id Sample.file_path)
    = Some (db2, Returned r)
    ∧ length (media_assets db2) = 6%nat
    ∧ MediaAssetService.get_asset_by_song_and_type
        db2 1%N AssetType.VIDEO_MASTER
      = inl Sql.MultipleResultsFound.
Proof.
  eexists _, _. split; [vm_compute; reflexivity|]. by vm_compute.
Qed.

(** C3 (amended): in a run on a song that exists, every execution that is
    followed by a retry raised an exception and left the song [FAILED], as
    long as the writes of [_mark_song_failed] go through. *)
Theorem celery_run_failed_between_executions
    lib (env : nat → Faults) db song_id file_path id (i : nat) db_i outcome :
  UUID lib song_id = inr id → is_Some (songs db !! id) →
  (∀ k, in_mark_failed (env k) = false) →
  celery_run lib env db song_id file_path !! i = Some (db_i, outcome) →
  (S i < length (celery_run lib env db song_id file_path))%nat →
  ∃ str_e, outcome = Raised (Exception str_e)
    ∧ status_of db_i id = Some (SongStatus.value SongStatus.FAILED).
Proof. apply executions_between. Qed.

Lemma celery_run_failed_between_executions_witness :
  let run :=
    celery_run Sample.lib Sample.retried
               Sample.db Sample.song_id Sample.file_path in
  let db1 :=
    (process_song_task Sample.lib (Sample.step6_raises Sample.connection_lost)
                       Sample.db Sample.song_id Sample.file_path).1 in
  (UUID Sample.lib Sample.song_id = inr 1%N
   ∧ is_Some (songs Sample.db !! 1%N)
   ∧ (∀ k, in_mark_failed (Sample.retried k) = false)
   ∧ run !! 0%nat = Some (db1, Raised Sample.connection_lost)
   ∧ (1 < length run)%nat)
  ∧ ∃ str_e, Raised Sample.connection_lost = Raised (Exception str_e)
      ∧ status_of db1 1%N = Some (SongStatus.value SongStatus.FAILED).
Proof.
  intros run db1.
  assert (UUID Sample.lib Sample.song_id = inr 1%N) as Hid
    by (vm_compute; reflexivity).
  assert (is_Some (songs Sample.db !! 1%N)) as Hsome
    by (vm_compute; eexists; reflexivity).
  assert (∀ k, in_mark_failed (Sample.retried k) = false) as Hmark
    by (intros [|k]; reflexivity).
  assert (run !! 0%nat = Some (db1, Raised Sample.connection_lost)) as Hrun
    by (vm_compute; reflexivity).
  assert (1 < length run)%nat as Hlen by (vm_compute; lia).
  split; [done|].
  exact (celery_run_failed_between_executions
           Sample.lib Sample.retried Sample.db Sample.song_id Sample.file_path
           1%N 0%nat db1 (Raised Sample.connection_lost)
           Hid Hsome Hmark Hrun Hlen).
Defined.

(** C10: when the id is a UUID without a song record and the lookup itself
    goes through, the task returns the failure [Song not found] without
    raising, the run consists of that one execution, and the database is
    left as it was. *)
Theorem process_song_task_song_not_found
    lib (env : nat → Faults) db song_id file_path id :
  UUID lib song_id = inr id → songs db !! id = None →
  in_step1 (env 0%nat) = None →
  process_song_task lib (env 0%nat) db song_id file_path
  = (db, Returned (NotProcessed song_id "Song not found"))
  ∧ success (NotProcessed song_id "Song not found") = false
  ∧ celery_run lib env db song_id file_path
    = [(db, Returned (NotProcessed song_id "Song not found"))].
Proof.
  intros Hid Hnone Hstep1.
  assert (process_song_task lib (env 0%nat) db song_id file_path
          = (db, Returned (NotProcessed song_id "Song not found"))) as Htask.
  { unfold process_song_task, process_song_body.
    by rewrite Hstep1, Hid, Hnone. }
  split; [done|]. split; [done|].
  unfold celery_run. simpl. by rewrite Htask.
Qed.

Lemma process_song_task_song_not_found_witness :
  (UUID Sample.lib Sample.other_id = inr 2%N
   ∧ songs Sample.db !! 2%N = None
   ∧ in_step1 (Sample.retried 0%nat) = None)
  ∧ (process_song_task Sample.lib (Sample.retried 0%nat) Sample.db
                       Sample.other_id Sample.file_path
     = (Sample.db, Returned (NotProcessed Sample.other_id "Song not found"))
     ∧ success (NotProcessed Sample.other_id "Song not found") = false
     ∧ celery_run Sample.lib Sample.retried Sample.db
                  Sample.other_id Sample.file_path
       = [(Sample.db,
           Returned (NotProcessed Sample.other_id "Song not found"))]).
Proof.
  split; [repeat split; vm_compute; reflexivity|].
  apply (process_song_task_song_not_found
           Sample.lib Sample.retried Sample.db Sample.other_id
           Sample.file_path 2%N); vm_compute; reflexivity.
Defined.

End LifecycleFacts.

(** * [file_iterator] *)

Section FileIteratorFacts.

Import StreamApi.

Implicit Types (content data : list Byte.byte) (chunks : list (list Byte.byte)).

Lemma read_nonneg content pos size :
  0 ≤ size → read content pos size = take (Z.to_nat size) (drop pos content).
Proof. intros Hsize. unfold read. by destruct (Z.ltb_spec size 0); [lia|]. Qed.

(** With a positive chunk size a read returns nothing only at the end of
    the file. *)
Lemma read_empty_inv content pos size :
  1 ≤ size → read content pos size = [] → drop pos content = [].
Proof.
  intros Hsize. rewrite read_nonneg by lia.
  intros [Hz|Hnil]%take_nil_inv; [lia|done].
Qed.

Lemma read_length content pos size :
  0 ≤ size → (length (read content pos size) ≤ Z.to_nat size)%nat.
Proof. intros Hsize. rewrite read_nonneg, length_take by done. lia. Qed.

(** The bytes yielded are, in order, the [remaining] bytes that follow
    [pos], or those up to the end of the file when it ends earlier. *)
Lemma file_iterator_loop_concat fuel content pos remaining chunk_size :
  1 ≤ chunk_size → (Z.to_nat remaining ≤ fuel)%nat →
  concat (file_iterator_loop fuel content pos remaining chunk_size)
  = take (Z.to_nat remaining) (drop pos content).
Proof.
  intros Hchunk. revert pos remaining.
  induction fuel as [|fuel IH]; intros pos remaining Hfuel; simpl.
  - by replace (Z.to_nat remaining) with 0%nat by lia.
  - destruct (Z.gtb_spec remaining 0) as [Hpos|Hle];
      [|by replace (Z.to_nat remaining) with 0%nat by lia].
    set (read_size := Z.min chunk_size remaining).
    destruct (read content pos read_size) as [|b data] eqn:Hread.
    + apply read_empty_inv in Hread as ->; [|lia]. by rewrite take_nil.
    + rewrite <- Hread. simpl. rewrite IH by (rewrite Hread; simpl; lia).
      rewrite read_nonneg in * by lia.
      set (rest := drop pos content) in *.
      assert (length (take (Z.to_nat read_size) rest) ≠ 0%nat) as Hne
        by (rewrite Hread; done).
      rewrite <- drop_drop. fold rest.
      rewrite length_take in *.
      destruct (decide (Z.to_nat read_size ≤ length rest)%nat) as [Hin|Hout].
      * rewrite Nat.min_l by done. rewrite take_take_drop. f_equal. lia.
      * rewrite Nat.min_r by lia. rewrite (drop_ge rest) by lia.
        rewrite take_nil, app_nil_r, !take_ge by lia. done.
Qed.

(** More fuel than [remaining] changes nothing. *)
Lemma file_iterator_loop_fuel fuel fuel' content pos remaining chunk_size :
  (Z.to_nat remaining ≤ fuel)%nat → (Z.to_nat remaining ≤ fuel')%nat →
  file_iterator_loop fuel content pos remaining chunk_size
  = file_iterator_loop fuel' content pos remaining chunk_size.
Proof.
  revert fuel' pos remaining.
  induction fuel as [|fuel IH]; intros [|fuel'] pos remaining H1 H2; simpl;
    try done.
  - by destruct (Z.gtb_spec remaining 0); [lia|].
  - by destruct (Z.gtb_spec remaining 0); [lia|].
  - destruct (Z.gtb_spec remaining 0); [|done].
    destruct (read content pos (Z.min chunk_size remaining)) as [|b data];
      [done|].
    f_equal. apply IH; simpl; lia.
Qed.

(** Every chunk holds between one and [chunk_size] bytes, and only the
    last chunk can be short. *)
Lemma file_iterator_loop_sizes fuel content pos remaining chunk_size
    (i : nat) data :
  1 ≤ chunk_size → (Z.to_nat remaining ≤ fuel)%nat →
  file_iterator_loop fuel content pos remaining chunk_size !! i = Some data →
  1 ≤ Z.of_nat (length data) ≤ chunk_size
  ∧ ((S i < length (file_iterator_loop fuel content pos remaining chunk_size))%nat
     → Z.of_nat (length data) = chunk_size).
Proof.
  intros Hchunk. revert pos remaining i.
  induction fuel as [|fuel IH]; intros pos remaining i Hfuel; simpl; [done|].
  destruct (Z.gtb_spec remaining 0) as [Hpos|Hle]; [|done].
  set (read_size := Z.min chunk_size remaining).
  destruct (read content pos read_size) as [|b rest] eqn:Hread; [done|].
  rewrite <- Hread.
  assert (length (read content pos read_size) ≠ 0%nat) as Hne
    by (by rewrite Hread).
  pose proof (read_length content pos read_size ltac:(lia)) as Hlen.
  destruct i as [|i]; simpl.
  - intros [= <-]. split; [lia|]. intros Hmore.
    destruct (decide (Z.of_nat (length (read content pos read_size))
                      = chunk_size)) as [|Hshort]; [done|exfalso].
    (* a short chunk is followed by nothing *)
    revert Hmore. destruct fuel as [|fuel']; simpl; [lia|].
    destruct (Z.gtb_spec (remaining
                          - Z.of_nat (length (read content pos read_size))) 0)
      as [Hleft|]; [|simpl; lia].
    assert (read content
              (pos + length (read content pos read_size))
              (Z.min chunk_size
                 (remaining - Z.of_nat (length (read content pos read_size))))
            = []) as ->; [|simpl; lia].
    rewrite !read_nonneg in * by lia. rewrite <- drop_drop.
    rewrite length_take in *.
    rewrite (drop_ge (drop pos content)) by lia. by rewrite take_nil.
  - intros Hi. apply IH in Hi as [Hsize Hfull]; [|lia].
    split; [done|]. intros Hmore. apply Hfull. lia.
Qed.

(** X1: on an existing file, with start >= 0 and a positive chunk size,
    [file_iterator] yields exactly the bytes start..end of the file, in
    order, cut at the end of the file; it yields nothing when end < start. *)
Theorem file_iterator_bytes
    (files : Files) (file_path : string) content (start end_ chunk_size : Z) :
  files !! file_path = Some content → 0 ≤ start → 1 ≤ chunk_size →
  ∃ chunks,
    file_iterator files file_path start end_ chunk_size = inr chunks
    ∧ concat chunks
      = take (Z.to_nat (end_ - start + 1)) (drop (Z.to_nat start) content).
Proof.
  intros Hfile Hstart Hchunk. unfold file_iterator. rewrite Hfile.
  destruct (Z.ltb_spec start 0); [lia|].
  eexists. split; [done|]. by apply file_iterator_loop_concat.
Qed.

Lemma file_iterator_bytes_witness :
  (Sample2.files !! "/data/media/songs/a.MP4" = Some Sample2.content
   ∧ 0 ≤ 3 ∧ 1 ≤ 8)
  ∧ ∃ chunks,
      file_iterator Sample2.files "/data/media/songs/a.MP4" 3 30 8
      = inr chunks
      ∧ concat chunks
        = take (Z.to_nat (30 - 3 + 1)) (drop (Z.to_nat 3) Sample2.content).
Proof.
  split; [repeat split; (reflexivity || lia)|].
  apply (file_iterator_bytes Sample2.files "/data/media/songs/a.MP4"
           Sample2.content 3 30 8); (reflexivity || lia).
Defined.

(** X2: every chunk [file_iterator] yields holds at least one byte and at
    most [chunk_size]; every chunk but the last holds exactly [chunk_size]
    bytes. *)
Theorem file_iterator_chunk_sizes
    (files : Files) (file_path : string) (start end_ chunk_size : Z)
    chunks (i : nat) data :
  1 ≤ chunk_size →
  file_iterator files file_path start end_ chunk_size = inr chunks →
  chunks !! i = Some data →
  1 ≤ Z.of_nat (length data) ≤ chunk_size
  ∧ ((S i < length chunks)%nat → Z.of_nat (length data) = chunk_size).
Proof.
  intros Hchunk. unfold file_iterator.
  destruct (files !! file_path) as [content|]; [|done].
  destruct (Z.ltb_spec start 0); [done|]. intros [= <-].
  by apply file_iterator_loop_sizes.
Qed.

Lemma file_iterator_chunk_sizes_witness :
  let chunks :=
    file_iterator_loop (Z.to_nat (30 - 3 + 1)) Sample2.content (Z.to_nat 3)
                       (30 - 3 + 1) 8 in
  let data := list_byte_of_string "3456789a" in
  (1 ≤ 8
   ∧ file_iterator Sample2.files "/data/media/songs/a.MP4" 3 30 8 = inr chunks
   ∧ chunks !! 0%nat = Some data)
  ∧ (1 ≤ Z.of_nat (length data) ≤ 8
     ∧ ((1 < length chunks)%nat → Z.of_nat (length data) = 8)).
Proof.
  intros chunks data.
  assert (file_iterator Sample2.files "/data/media/songs/a.MP4" 3 30 8
          = inr chunks) as Hit by reflexivity.
  assert (chunks !! 0%nat = Some data) as Hdata by reflexivity.
  split; [split; [lia|done]|].
  exact (file_iterator_chunk_sizes Sample2.files "/data/media/songs/a.MP4"
           3 30 8 chunks 0%nat data ltac:(lia) Hit Hdata).
Defined.

End FileIteratorFacts.

(** * The streaming handlers *)

Section StreamApiFacts.

Import Py Stream RangeSpec StreamApi.

Implicit Types (lib : ProcessSong.Lib) (lower : string → string)
  (assets : gmap uuid MediaAsset.t) (files : Files)
  (content : list Byte.byte).

Lemma parse_range_header_inr_bounds (s : string) (file_size lo hi : Z) :
  parse_range_header s file_size = inr (lo, hi) →
  0 ≤ lo ∧ lo ≤ hi ∧ hi < file_size.
Proof.
  intros Hparse. destruct (match_range s) as [[a b]|] eqn:Hm.
  - destruct (decide (a = "" ∧ b = "")) as [[-> ->]|Hne].
    + by rewrite parse_range_header_both_empty in Hparse.
    + assert (a ≠ "" ∨ b ≠ "") as Hne'
        by (destruct (decide (a = "")); [right|left]; naive_solver).
      rewrite (parse_range_header_matched _ _ _ _ Hm Hne') in Hparse.
      unfold clamp in Hparse.
      destruct (interval a b file_size) as [lo' hi']. simpl in Hparse.
      destruct (Z.gtb_spec (Z.max 0 lo') (Z.min hi' (file_size - 1)));
        [done|].
      injection Hparse as <- <-. lia.
  - by rewrite parse_range_header_unmatched in Hparse.
Qed.

Lemma exists_Some files path content :
  files !! path = Some content → exists_ files path = true.
Proof. intros H. unfold exists_. rewrite H. by apply bool_decide_eq_true. Qed.

Lemma exists_None files path :
  files !! path = None → exists_ files path = false.
Proof.
  intros H. unfold exists_. rewrite H. apply bool_decide_eq_false.
  by intros [? ?].
Qed.

Lemma getsize_Some files path content :
  files !! path = Some content → getsize files path = Z.of_nat (length content).
Proof. intros H. unfold getsize. by rewrite H. Qed.

(** The bytes of a window that lies inside the file. *)
Lemma file_iterator_window files path content (start end_ : Z) :
  files !! path = Some content →
  0 ≤ start → end_ < Z.of_nat (length content) → start ≤ end_ + 1 →
  ∃ chunks,
    file_iterator files path start end_ default_chunk_size = inr chunks
    ∧ concat chunks
      = take (Z.to_nat (end_ - start + 1)) (drop (Z.to_nat start) content)
    ∧ Z.of_nat (length (concat chunks)) = end_ - start + 1.
Proof.
  intros Hfile Hstart Hend Hle. unfold file_iterator. rewrite Hfile.
  destruct (Z.ltb_spec start 0); [lia|].
  eexists. split; [done|].
  rewrite file_iterator_loop_concat by (done || unfold default_chunk_size; lia).
  split; [done|]. rewrite length_take, length_drop. lia.
Qed.

(** X3: [stream_media] answers 404 exactly when the asset id is unknown or
    the file of the asset is missing from the media directory. *)
Theorem stream_media_not_found
    lib lower (MEDIA_ROOT : string) assets files (asset_id : uuid)
    (range_header : option string) :
  (∃ e, stream_media lib lower MEDIA_ROOT assets files asset_id range_header
        = inl e
        ∧ HTTPException.status_code e = 404)
  ↔ (assets !! asset_id = None
     ∨ ∃ asset, assets !! asset_id = Some asset
         ∧ files !! ProcessSong.join lib [MEDIA_ROOT; MediaAsset.path asset]
           = None).
Proof.
  unfold stream_media, get_media_asset.
  destruct (assets !! asset_id) as [asset|]; [|split; eauto].
  destruct (files !! ProcessSong.join lib [MEDIA_ROOT; MediaAsset.path asset])
    as [content|] eqn:Hfile.
  - rewrite (exists_Some _ _ _ Hfile). simpl. split.
    + intros (e & He & Hstatus). exfalso. revert He Hstatus.
      destruct range_header as [[|c rest]|]; try done.
      destruct (parse_range_header _ _) as [err|[start end_]]; [|done].
      by intros [= <-].
    + intros [Hnone|(asset' & Heq & Hnone)]; [done|].
      injection Heq as <-. congruence.
  - rewrite (exists_None _ _ Hfile). simpl. split; eauto.
Qed.

(** X4: whenever [stream_media] streams, with or without a range, the
    [Content-Length] header is the number of bytes the body yields, the
    [Content-Type] header is the media type of the response, and the status
    is 200 or 206. *)
Theorem stream_media_content_length
    lib lower (MEDIA_ROOT : string) assets files (asset_id : uuid)
    (range_header : option string) resp :
  stream_media lib lower MEDIA_ROOT assets files asset_id range_header
  = inr resp →
  ∃ chunks,
    StreamingResponse.content resp = inr chunks
    ∧ header (StreamingResponse.headers resp) "Content-Length"
      = Some (Py.str (Z.of_nat (length (concat chunks))))
    ∧ header (StreamingResponse.headers resp) "Content-Type"
      = Some (StreamingResponse.media_type resp)
    ∧ (StreamingResponse.status_code resp = 200
       ∨ StreamingResponse.status_code resp = 206).
Proof.
  unfold stream_media, get_media_asset.
  destruct (assets !! asset_id) as [asset|]; [|done].
  set (path := ProcessSong.join lib [MEDIA_ROOT; MediaAsset.path asset]).
  destruct (files !! path) as [content|] eqn:Hfile;
    [|by rewrite (exists_None _ _ Hfile)].
  rewrite (exists_Some _ _ _ Hfile), (getsize_Some _ _ _ Hfile). simpl.
  assert (∀ resp',
    resp' = StreamingResponse.make
              (file_iterator files path 0 (Z.of_nat (length content) - 1)
                             default_chunk_size)
              200
              [("Accept-Ranges", "bytes");
               ("Content-Length", Py.str (Z.of_nat (length content)));
               ("Content-Type", get_content_type lib lower path)]
              (get_content_type lib lower path) →
    ∃ chunks,
      StreamingResponse.content resp' = inr chunks
      ∧ header (StreamingResponse.headers resp') "Content-Length"
        = Some (Py.str (Z.of_nat (length (concat chunks))))
      ∧ header (StreamingResponse.headers resp') "Content-Type"
        = Some (StreamingResponse.media_type resp')
      ∧ (StreamingResponse.status_code resp' = 200
         ∨ StreamingResponse.status_code resp' = 206)) as Hfull.
  { intros resp' ->.
    destruct (file_iterator_window files path content 0
                (Z.of_nat (length content) - 1) Hfile)
      as (chunks & Hit & _ & Hlen); [lia..|].
    exists chunks. simpl. rewrite Hlen.
    split; [done|]. split; [do 2 f_equal; lia|]. split; [done|by left]. }
  destruct range_header as [[|c rest]|];
    [intros [= <-]; by apply Hfull| |intros [= <-]; by apply Hfull].
  destruct (parse_range_header (String c rest) (Z.of_nat (length content)))
    as [err|[start end_]] eqn:Hparse; [done|].
  intros [= <-].
  apply parse_range_header_inr_bounds in Hparse as (Hlo & Hle & Hhi).
  destruct (file_iterator_window files path content start end_ Hfile)
    as (chunks & Hit & _ & Hlen); [lia..|].
  exists chunks. simpl. rewrite Hlen.
  split; [done|]. split; [done|]. split; [done|by right].
Qed.

Lemma stream_media_content_length_witness :
  let resp :=
    StreamingResponse.make
      (file_iterator Sample2.files "/data/media/songs/a.MP4" 3 12
                     default_chunk_size)
      206
      [("Content-Range", "bytes 3-12/36"); ("Accept-Ranges", "bytes");
       ("Content-Length", "10"); ("Content-Type", "video/mp4")]
      "video/mp4" in
  stream_media Sample.lib Sample2.lower Sample2.MEDIA_ROOT Sample2.assets
               Sample2.files 7%N (Some "bytes=3-12")
  = inr resp
  ∧ ∃ chunks,
      StreamingResponse.content resp = inr chunks
      ∧ header (StreamingResponse.headers resp) "Content-Length"
        = Some (Py.str (Z.of_nat (length (concat chunks))))
      ∧ header (StreamingResponse.headers resp) "Content-Type"
        = Some (StreamingResponse.media_type resp)
      ∧ (StreamingResponse.status_code resp = 200
         ∨ StreamingResponse.status_code resp = 206).
Proof.
  intros resp.
  assert (stream_media Sample.lib Sample2.lower Sample2.MEDIA_ROOT
            Sample2.assets Sample2.files 7%N (Some "bytes=3-12")
          = inr resp) as Hresp by (vm_compute; reflexivity).
  split; [exact Hresp|].
  exact (stream_media_content_length Sample.lib Sample2.lower
           Sample2.MEDIA_ROOT Sample2.assets Sample2.files 7%N
           (Some "bytes=3-12") resp Hresp).
Defined.

(** X5: a range request whose header parses to (start, end) is answered
    with 206, the header [Content-Range: bytes start-end/size], and a body
    that is exactly the bytes start..end of the file. *)
Theorem stream_media_partial
    lib lower (MEDIA_ROOT : string) assets files (asset_id : uuid)
    asset content (c : ascii) (rest : string) (start end_ : Z) :
  assets !! asset_id = Some asset →
  files !! ProcessSong.join lib [MEDIA_ROOT; MediaAsset.path asset]
  = Some content →
  parse_range_header (String c rest) (Z.of_nat (length content))
  = inr (start, end_) →
  ∃ resp chunks,
    stream_media lib lower MEDIA_ROOT assets files asset_id
                 (Some (String c rest))
    = inr resp
    ∧ StreamingResponse.status_code resp = 206
    ∧ header (StreamingResponse.headers resp) "Content-Range"
      = Some ("bytes " ++ Py.str start ++ "-" ++ Py.str end_ ++ "/"
                ++ Py.str (Z.of_nat (length content)))
    ∧ StreamingResponse.content resp = inr chunks
    ∧ concat chunks
      = take (Z.to_nat (end_ - start + 1)) (drop (Z.to_nat start) content)
    ∧ Z.of_nat (length (concat chunks)) = end_ - start + 1.
Proof.
  intros Hasset Hfile Hparse. unfold stream_media, get_media_asset.
  rewrite Hasset, (exists_Some _ _ _ Hfile), (getsize_Some _ _ _ Hfile).
  simpl. rewrite Hparse.
  apply parse_range_header_inr_bounds in Hparse as (Hlo & Hle & Hhi).
  destruct (file_iterator_window files _ content start end_ Hfile)
    as (chunks & Hit & Hbytes & Hlen); [lia..|].
  eexists _, chunks. split; [reflexivity|]. simpl. by rewrite Hit.
Qed.

Lemma stream_media_partial_witness :
  (Sample2.assets !! 7%N = Some (Sample.video "songs/a.MP4")
   ∧ Sample2.files
       !! ProcessSong.join Sample.lib
            [Sample2.MEDIA_ROOT; MediaAsset.path (Sample.video "songs/a.MP4")]
     = Some Sample2.content
   ∧ parse_range_header "bytes=-6" (Z.of_nat (length Sample2.content))
     = inr (30, 35))
  ∧ ∃ resp chunks,
      stream_media Sample.lib Sample2.lower Sample2.MEDIA_ROOT Sample2.assets
                   Sample2.files 7%N (Some "bytes=-6")
      = inr resp
      ∧ StreamingResponse.status_code resp = 206
      ∧ header (StreamingResponse.headers resp) "Content-Range"
        = Some ("bytes " ++ Py.str 30 ++ "-" ++ Py.str 35 ++ "/"
                  ++ Py.str (Z.of_nat (length Sample2.content)))
      ∧ StreamingResponse.content resp = inr chunks
      ∧ concat chunks
        = take (Z.to_nat (35 - 30 + 1)) (drop (Z.to_nat 30) Sample2.content)
      ∧ Z.of_nat (length (concat chunks)) = 35 - 30 + 1.
Proof.
  split; [repeat split; vm_compute; reflexivity|].
  apply (stream_media_partial Sample.lib Sample2.lower Sample2.MEDIA_ROOT
           Sample2.assets Sample2.files 7%N (Sample.video "songs/a.MP4")
           Sample2.content "b"%char "ytes=-6" 30 35);
    vm_compute; reflexivity.
Defined.

(** X6: [stream_media] answers 416 exactly when the asset and its file
    exist, a non-empty [Range] header was sent and [parse_range_header]
    rejects it; the detail is then the message of the parser and the only
    header is [Content-Range: bytes */size]. *)
Theorem stream_media_range_not_satisfiable
    lib lower (MEDIA_ROOT : string) assets files (asset_id : uuid)
    (range_header : option string) (detail : string)
    (headers : list (string * string)) :
  stream_media lib lower MEDIA_ROOT assets files asset_id range_header
  = inl (HTTPException.make 416 detail headers)
  ↔ ∃ s asset content err,
      range_header = Some s ∧ s ≠ ""
      ∧ assets !! asset_id = Some asset
      ∧ files !! ProcessSong.join lib [MEDIA_ROOT; MediaAsset.path asset]
        = Some content
      ∧ parse_range_header s (Z.of_nat (length content)) = inl err
      ∧ detail = str_ValueError err
      ∧ headers = [("Content-Range",
                    "bytes */" ++ Py.str (Z.of_nat (length content)))].
Proof.
  unfold stream_media, get_media_asset. split.
  - destruct (assets !! asset_id) as [asset|]; [|done].
    set (path := ProcessSong.join lib [MEDIA_ROOT; MediaAsset.path asset]).
    destruct (files !! path) as [content|] eqn:Hfile;
      [|by rewrite (exists_None _ _ Hfile)].
    rewrite (exists_Some _ _ _ Hfile), (getsize_Some _ _ _ Hfile). simpl.
    destruct range_header as [[|c rest]|]; [done| |done].
    destruct (parse_range_header (String c rest) (Z.of_nat (length content)))
      as [err|[start end_]] eqn:Hparse; [|done].
    intros [= <- <-]. by exists (String c rest), asset, content, err.
  - intros (s & asset & content & err & -> & Hs & -> & Hfile & Hparse
            & -> & ->).
    rewrite (exists_Some _ _ _ Hfile), (getsize_Some _ _ _ Hfile). simpl.
    destruct s as [|c rest]; [done|]. by rewrite Hparse.
Qed.

(** X7: on an empty file every non-empty [Range] header is answered with
    416 and [Content-Range: bytes */0], and a request without a range with
    200, [Content-Length: 0] and no chunk. *)
Theorem stream_media_empty_file
    lib lower (MEDIA_ROOT : string) assets files (asset_id : uuid)
    asset (c : ascii) (rest : string) :
  assets !! asset_id = Some asset →
  files !! ProcessSong.join lib [MEDIA_ROOT; MediaAsset.path asset]
  = Some [] →
  (∃ err,
     stream_media lib lower MEDIA_ROOT assets files asset_id
                  (Some (String c rest))
     = inl (HTTPException.make 416 (str_ValueError err)
                               [("Content-Range", "bytes */0")]))
  ∧ ∃ resp,
      stream_media lib lower MEDIA_ROOT assets files asset_id None = inr resp
      ∧ StreamingResponse.status_code resp = 200
      ∧ StreamingResponse.content resp = inr []
      ∧ header (StreamingResponse.headers resp) "Content-Length" = Some "0".
Proof.
  intros Hasset Hfile. unfold stream_media, get_media_asset.
  rewrite Hasset, (exists_Some _ _ _ Hfile), (getsize_Some _ _ _ Hfile).
  simpl. change (Z.of_nat 0) with 0. split.
  - destruct (parse_range_header (String c rest) 0)
      as [err|[start end_]] eqn:Hparse; [by exists err|].
    apply parse_range_header_inr_bounds in Hparse. lia.
  - eexists. split; [reflexivity|]. simpl. unfold file_iterator.
    by rewrite Hfile.
Qed.

Lemma stream_media_empty_file_witness :
  let assets : gmap uuid MediaAsset.t :=
    {[ 9%N := Sample.video "songs/empty.mp3" ]} in
  (assets !! 9%N = Some (Sample.video "songs/empty.mp3")
   ∧ Sample2.files
       !! ProcessSong.join Sample.lib
            [Sample2.MEDIA_ROOT;
             MediaAsset.path (Sample.video "songs/empty.mp3")]
     = Some [])
  ∧ ((∃ err,
        stream_media Sample.lib Sample2.lower Sample2.MEDIA_ROOT assets
                     Sample2.files 9%N (Some "bytes=0-")
        = inl (HTTPException.make 416 (str_ValueError err)
                                  [("Content-Range", "bytes */0")]))
     ∧ ∃ resp,
         stream_media Sample.lib Sample2.lower Sample2.MEDIA_ROOT assets
                      Sample2.files 9%N None
         = inr resp
         ∧ StreamingResponse.status_code resp = 200
         ∧ StreamingResponse.content resp = inr []
         ∧ header (StreamingResponse.headers resp) "Content-Length"
           = Some "0").
Proof.
  intros assets. split; [split; vm_compute; reflexivity|].
  apply (stream_media_empty_file Sample.lib Sample2.lower Sample2.MEDIA_ROOT
           assets Sample2.files 9%N (Sample.video "songs/empty.mp3")
           "b"%char "ytes=0-"); vm_compute; reflexivity.
Defined.

(** X8: without a [Range] header, or with an empty one, an existing file
    is answered with 200, no [Content-Range] header, and a body that is the
    whole file. *)
Theorem stream_media_full
    lib lower (MEDIA_ROOT : string) assets files (asset_id : uuid)
    asset content (range_header : option string) :
  assets !! asset_id = Some asset →
  files !! ProcessSong.join lib [MEDIA_ROOT; MediaAsset.path asset]
  = Some content →
  range_header = None ∨ range_header = Some "" →
  ∃ resp chunks,
    stream_media lib lower MEDIA_ROOT assets files asset_id range_header
    = inr resp
    ∧ StreamingResponse.status_code resp = 200
    ∧ header (StreamingResponse.headers resp) "Content-Range" = None
    ∧ header (StreamingResponse.headers resp) "Accept-Ranges" = Some "bytes"
    ∧ StreamingResponse.content resp = inr chunks
    ∧ concat chunks = content.
Proof.
  intros Hasset Hfile Hrange. unfold stream_media, get_media_asset.
  rewrite Hasset, (exists_Some _ _ _ Hfile), (getsize_Some _ _ _ Hfile).
  simpl.
  destruct (file_iterator_window files _ content 0
              (Z.of_nat (length content) - 1) Hfile)
    as (chunks & Hit & Hbytes & _); [lia..|].
  assert (concat chunks = content) as Hwhole.
  { rewrite Hbytes. simpl. apply take_ge. lia. }
  destruct Hrange as [-> | ->]; eexists _, chunks;
    (split; [reflexivity|]); simpl; by rewrite Hit.
Qed.

Lemma stream_media_full_witness :
  (Sample2.assets !! 7%N = Some (Sample.video "songs/a.MP4")
   ∧ Sample2.files
       !! ProcessSong.join Sample.lib
            [Sample2.MEDIA_ROOT; MediaAsset.path (Sample.video "songs/a.MP4")]
     = Some Sample2.content
   ∧ (Some "" = None ∨ Some "" = Some ""))
  ∧ ∃ resp chunks,
      stream_media Sample.lib Sample2.lower Sample2.MEDIA_ROOT Sample2.assets
                   Sample2.files 7%N (Some "")
      = inr resp
      ∧ StreamingResponse.status_code resp = 200
      ∧ header (StreamingResponse.headers resp) "Content-Range" = None
      ∧ header (StreamingResponse.headers resp) "Accept-Ranges"
        = Some "bytes"
      ∧ StreamingResponse.content resp = inr chunks
      ∧ concat chunks = Sample2.content.
Proof.
  assert (Some "" = None ∨ Some "" = Some "") as Hrange by (right; reflexivity).
  split; [repeat split; (exact Hrange || (vm_compute; reflexivity))|].
  apply (stream_media_full Sample.lib Sample2.lower Sample2.MEDIA_ROOT
           Sample2.assets Sample2.files 7%N (Sample.video "songs/a.MP4")
           Sample2.content (Some ""));
    [vm_compute; reflexivity | vm_compute; reflexivity | exact Hrange].
Defined.

(** X9: [head_media] fails exactly as [stream_media] without a range does,
    with the same exception; when it succeeds it answers 200 with the same
    headers as [stream_media] and an empty body. *)
Theorem head_media_as_stream_media
    lib lower (MEDIA_ROOT : string) assets files (asset_id : uuid) :
  match head_media lib lower MEDIA_ROOT assets files asset_id,
        stream_media lib lower MEDIA_ROOT assets files asset_id None with
  | inl e, inl e' => e = e'
  | inr r, inr s =>
      Response.headers r = StreamingResponse.headers s
      ∧ Response.status_code r = 200
      ∧ StreamingResponse.status_code s = 200
      ∧ Response.content r = []
  | _, _ => False
  end.
Proof.
  unfold head_media, stream_media.
  destruct (get_media_asset assets asset_id) as [asset|]; [|done].
  by destruct (exists_ files _).
Qed.

(** X10: the content type is decided by the lowercased extension alone: a
    video type for the five video extensions, an audio type for the six audio
    extensions, and [application/octet-stream] for every other extension. *)
Theorem get_content_type_families lib lower (file_path : string) :
  let ext := lower (ProcessSong.splitext lib file_path).2 in
  let content_type := get_content_type lib lower file_path in
  (ext ∈ [".mp4"; ".webm"; ".mkv"; ".avi"; ".mov"] →
   String.prefix "video/" content_type = true)
  ∧ (ext ∈ [".mp3"; ".wav"; ".flac"; ".aac"; ".ogg"; ".m4a"] →
     String.prefix "audio/" content_type = true)
  ∧ (ext ∉ [".mp4"; ".webm"; ".mkv"; ".avi"; ".mov";
            ".mp3"; ".wav"; ".flac"; ".aac"; ".ogg"; ".m4a"] →
     content_type = "application/octet-stream").
Proof.
  intros ext content_type. subst content_type. unfold get_content_type.
  fold ext. generalize ext. clear ext. intros ext.
  split; [|split].
  - rewrite !elem_of_cons, elem_of_nil.
    intros [->|[->|[->|[->|[->|[]]]]]]; reflexivity.
  - rewrite !elem_of_cons, elem_of_nil.
    intros [->|[->|[->|[->|[->|[->|[]]]]]]]; reflexivity.
  - intros Hext. unfold MIME_TYPES.
    by rewrite (not_elem_of_list_to_map_1 _ ext).
Qed.

End StreamApiFacts.

(** * More on the asset registry *)

Section RegistryMore.

Import RegistrySpec StreamApi.

Implicit Types (db : DB) (song_id : uuid) (kind : AssetType.t).

Lemma AssetType_value_inj kind kind' :
  AssetType.value kind = AssetType.value kind' → kind = kind'.
Proof. by destruct kind, kind'. Qed.

Lemma filter_none {A} (P : A → Prop) `{!∀ x, Decision (P x)} (l : list A) :
  (∀ x, x ∈ l → ¬ P x) → filter P l = [].
Proof.
  induction l as [|x l IH]; intros Hnone; [done|].
  rewrite filter_cons_False by (apply Hnone; left).
  apply IH. intros y Hy. apply Hnone. by right.
Qed.

Lemma filter_all {A} (P : A → Prop) `{!∀ x, Decision (P x)} (l : list A) :
  (∀ x, x ∈ l → P x) → filter P l = l.
Proof.
  induction l as [|x l IH]; intros Hall; [done|].
  rewrite filter_cons_True by (apply Hall; left).
  f_equal. apply IH. intros y Hy. apply Hall. by right.
Qed.

(** X11: [create_media_assets_for_song] appends three records to the
    table, a video_master, an audio_original and an audio_inst record of the
    song, in this order and with the three paths given; it returns them,
    leaves the songs alone, and the song is complete afterwards. *)
Theorem create_media_assets_for_song_registers
    db song_id (video_path audio_original_path audio_inst_path : string)
    (m1 m2 m3 : option (gmap string PyVal)) :
  let result :=
    SyncMediaAssetService.create_media_assets_for_song
      db song_id video_path audio_original_path audio_inst_path m1 m2 m3 in
  media_assets result.1 = (media_assets db ++ result.2)%list
  ∧ songs result.1 = songs db
  ∧ MediaAsset.type <$> result.2
    = ["video_master"; "audio_original"; "audio_inst"]
  ∧ MediaAsset.path <$> result.2
    = [video_path; audio_original_path; audio_inst_path]
  ∧ MediaAsset.song_id <$> result.2 = [song_id; song_id; song_id]
  ∧ SyncMediaAssetService.has_required_assets result.1 song_id = true.
Proof.
  intros result. subst result. simpl.
  split; [by rewrite <- !app_assoc|]. do 4 (split; [done|]).
  apply has_required_assets_superset. intros k Hk.
  apply recorded_kinds_elem. simpl. unfold mandatory_kinds in Hk.
  apply elem_of_union in Hk as [[Hk|Hk]%elem_of_union|Hk];
    apply elem_of_singleton in Hk as ->;
    eexists (MediaAsset.make song_id _ _ _ _ _ _ _);
    (split; [|split; reflexivity]);
    rewrite !elem_of_app, !list_elem_of_singleton; eauto 10.
Qed.



Lemma filter_song_filter_other db song_id (other : uuid) :
  other ≠ song_id →
  filter (λ a, MediaAsset.song_id a = other)
         (filter (λ a, MediaAsset.song_id a ≠ song_id) (media_assets db))
  = filter (λ a, MediaAsset.song_id a = other) (media_assets db).
Proof.
  intros Hother. rewrite list_filter_filter. apply list_filter_iff.
  intros a. split; [by intros [? _]|]. intros Ha. split; [done|congruence].
Qed.

(** X13: [delete_assets_by_song] returns the number of records the song
    had; afterwards the song has no record, no lookup by kind finds one and
    the song is not complete, while the songs table and the records of every
    other song are as before. *)
Theorem delete_assets_by_song_effect db song_id :
  let result := SyncMediaAssetService.delete_assets_by_song db song_id in
  result.2 = length (SyncMediaAssetService.get_assets_by_song db song_id)
  ∧ SyncMediaAssetService.get_assets_by_song result.1 song_id = []
  ∧ (∀ choose kind,
       SyncMediaAssetService.get_asset_by_song_and_type
         choose result.1 song_id kind
       = None)
  ∧ SyncMediaAssetService.has_required_assets result.1 song_id = false
  ∧ songs result.1 = songs db
  ∧ (∀ other, other ≠ song_id →
       SyncMediaAssetService.get_assets_by_song result.1 other
       = SyncMediaAssetService.get_assets_by_song db other).
Proof.
  intros result. subst result. simpl.
  assert (SyncMediaAssetService.get_assets_by_song
            (with_media_assets
               (filter (λ a, MediaAsset.song_id a ≠ song_id) (media_assets db))
               db) song_id = []) as Hgone.
  { unfold SyncMediaAssetService.get_assets_by_song. simpl.
    apply filter_none. intros a [Ha _]%list_elem_of_filter. done. }
  split; [done|]. split; [done|]. split; [|split; [|split; [done|]]].
  - intros choose kind. apply sync_get_asset_by_song_and_type_None.
    unfold records_of_kind. simpl. apply filter_none.
    intros a [Ha _]%list_elem_of_filter [Hid _]. done.
  - apply not_true_is_false. rewrite has_required_assets_superset.
    unfold recorded_kinds. rewrite Hgone. unfold mandatory_kinds. set_solver.
  - intros other Hother. by apply filter_song_filter_other.
Qed.

(** X14: deleting the records of a song right after registering its three
    records removes three records more than deleting would have removed
    before, and leaves the same table; for a song that had no record the
    table is back to what it was. *)
Theorem create_then_delete
    db song_id (video_path audio_original_path audio_inst_path : string)
    (m1 m2 m3 : option (gmap string PyVal)) :
  let created :=
    (SyncMediaAssetService.create_media_assets_for_song
       db song_id video_path audio_original_path audio_inst_path m1 m2 m3).1 in
  let before := SyncMediaAssetService.delete_assets_by_song db song_id in
  SyncMediaAssetService.delete_assets_by_song created song_id
  = (before.1, (before.2 + 3)%nat)
  ∧ (SyncMediaAssetService.get_assets_by_song db song_id = [] →
     SyncMediaAssetService.delete_assets_by_song created song_id
     = (db, 3%nat)).
Proof.
  intros created before. subst created before.
  assert (SyncMediaAssetService.delete_assets_by_song
            (SyncMediaAssetService.create_media_assets_for_song
               db song_id video_path audio_original_path audio_inst_path
               m1 m2 m3).1 song_id
          = ((SyncMediaAssetService.delete_assets_by_song db song_id).1,
             ((SyncMediaAssetService.delete_assets_by_song db song_id).2 + 3)%nat))
    as Heq.
  { unfold SyncMediaAssetService.delete_assets_by_song,
      SyncMediaAssetService.get_assets_by_song. simpl.
    rewrite !filter_app.
    rewrite !(filter_cons_True (λ a, MediaAsset.song_id a = song_id)) by done.
    rewrite !(filter_cons_False (λ a, MediaAsset.song_id a ≠ song_id)) by
      (simpl; intros Hne; by apply Hne).
    rewrite !filter_nil, !app_nil_r, !length_app. simpl.
    f_equal. lia. }
  split; [done|]. intros Hnone. rewrite Heq.
  unfold SyncMediaAssetService.delete_assets_by_song. rewrite Hnone. simpl.
  f_equal. destruct db as [s l]. unfold with_media_assets. simpl. f_equal.
  apply filter_all. intros a Ha Hid.
  unfold SyncMediaAssetService.get_assets_by_song in Hnone. simpl in Hnone.
  assert (a ∈ filter (λ a, MediaAsset.song_id a = song_id) l) as Hin
    by (by apply list_elem_of_filter).
  rewrite Hnone in Hin. by apply elem_of_nil in Hin.
Qed.

(** X15: registering a record changes no lookup for another song or
    another kind.  For its own song and kind the lookup finds a record
    afterwards: the new one when there was none before, and otherwise the new
    one or one of those recorded before, as the database chooses. *)
Theorem create_asset_lookup
    (choose : list MediaAsset.t → nat)
    db song_id kind (path : string)
    (file_size duration codec bitrate resolution : PyVal)
    (song_id' : uuid) kind' :
  let result :=
    SyncMediaAssetService.create_asset
      db song_id kind path file_size duration codec bitrate resolution in
  let before :=
    SyncMediaAssetService.get_asset_by_song_and_type
      choose db song_id' kind' in
  let after :=
    SyncMediaAssetService.get_asset_by_song_and_type
      choose result.1 song_id' kind' in
  (¬ (song_id = song_id' ∧ kind = kind') → after = before)
  ∧ (song_id = song_id' ∧ kind = kind' →
     (before = None → after = Some result.2)
     ∧ ∃ found,
         after = Some found
         ∧ (found = result.2 ∨ found ∈ records_of_kind db song_id kind)).
Proof.
  intros result before after. subst result before after.
  rewrite !sync_get_asset_by_song_and_type_first.
  unfold records_of_kind. simpl. rewrite filter_app. split.
  - intros Hne. rewrite filter_cons_False; [by rewrite app_nil_r|]. simpl.
    intros [-> Hk%AssetType_value_inj]. by apply Hne.
  - intros [<- <-]. rewrite filter_cons_True by done.
    rewrite filter_nil. split.
    + intros ->%first_None. apply first_singleton.
    + match goal with
      | |- context [Sql.first choose ?rows] =>
          destruct (Sql.first choose rows) as [found|] eqn:Hfirst
      end.
      * exists found. split; [done|].
        apply first_elem_of, elem_of_app in Hfirst as [Hold|Hnew]; [by right|].
        left. by apply list_elem_of_singleton in Hnew.
      * apply first_None in Hfirst. by destruct (filter _ (media_assets db)).
Qed.

(** X16: the lookup by kind of the API returns what the lookup of the
    worker returns whenever at most one record of that kind exists for the
    song, and raises [MultipleResultsFound] otherwise. *)
Theorem get_asset_by_song_and_type_agree
    (choose : list MediaAsset.t → nat) db song_id kind :
  MediaAssetService.get_asset_by_song_and_type db song_id kind
  = if decide (length (records_of_kind db song_id kind) ≤ 1)%nat
    then inr (SyncMediaAssetService.get_asset_by_song_and_type
                choose db song_id kind)
    else inl Sql.MultipleResultsFound.
Proof.
  rewrite sync_get_asset_by_song_and_type_first.
  unfold MediaAssetService.get_asset_by_song_and_type.
  fold (records_of_kind db song_id kind).
  destruct (records_of_kind db song_id kind) as [|a [|a' l]]; [done| |done].
  by rewrite first_singleton.
Qed.

Lemma get_song_asset_outcomes kind (detail : string) db song_id :
  get_song_asset kind detail db song_id
  = match records_of_kind db song_id kind with
    | [] => inr (inl (HTTPException.make 404 detail []))
    | [asset] => inr (inr asset)
    | _ :: _ :: _ => inl Sql.MultipleResultsFound
    end.
Proof.
  unfold get_song_asset, MediaAssetService.get_asset_by_song_and_type.
  fold (records_of_kind db song_id kind).
  by destruct (records_of_kind db song_id kind) as [|a [|a' l]].
Qed.

(** X17: each of the three endpoints that look a song's asset up by kind
    answers 404 when the song has no record of the kind, returns the record
    when it has exactly one, and fails with [MultipleResultsFound] when it
    has several. *)
Theorem get_song_asset_endpoints db song_id :
  let outcome
        (endpoint : DB → uuid → Sql.Error + (HTTPException.t + MediaAsset.t))
        (kind : AssetType.t) : Prop :=
    match records_of_kind db song_id kind with
    | [] =>
        ∃ e, endpoint db song_id = inr (inl e)
             ∧ HTTPException.status_code e = 404
    | [asset] => endpoint db song_id = inr (inr asset)
    | _ :: _ :: _ => endpoint db song_id = inl Sql.MultipleResultsFound
    end in
  outcome get_song_video AssetType.VIDEO_MASTER
  ∧ outcome get_song_original_audio AssetType.AUDIO_ORIGINAL
  ∧ outcome get_song_instrumental_audio AssetType.AUDIO_INST.
Proof.
  intros outcome. subst outcome. simpl.
  unfold get_song_video, get_song_original_audio,
    get_song_instrumental_audio.
  rewrite !get_song_asset_outcomes.
  repeat split;
    match goal with
    | |- context [records_of_kind ?d ?s ?k] =>
        destruct (records_of_kind d s k) as [|a [|a' l]]; eauto
    end.
Qed.

End RegistryMore.

(** * More on the processing job *)

Section LifecycleMore.

Import ProcessSong RegistrySpec.

Implicit Types (lib : Lib) (faults : Faults) (db : DB) (id : uuid)
  (env : nat → Faults).

Lemma meta_of_set_status db id song (v : string) id' (key : string) :
  songs db !! id = Some song →
  meta_of (with_songs (<[id := Song.set_status v song]> (songs db)) db) id' key
  = meta_of db id' key.
Proof.
  intros Hsong. unfold meta_of. simpl.
  destruct (decide (id = id')) as [<-|Hne].
  - by rewrite lookup_insert_eq, Hsong.
  - by rewrite lookup_insert_ne.
Qed.

Lemma dom_set_song db id song song' :
  songs db !! id = Some song →
  dom (<[id := song']> (songs db)) = dom (songs db).
Proof. intros Hsong. by apply dom_insert_lookup_L. Qed.

(** X18: [_mark_song_failed] never touches the registry, never adds or
    removes a song and never changes another song.  When its session raises
    it changes nothing at all; otherwise an existing song becomes [FAILED].
    The message is stored under [error], as the only entry, when [meta_json]
    was [None]; a [meta_json] that was a dictionary is left as it was stored
    at every key, so the message is not recorded in it. *)
Theorem mark_song_failed_effect
    lib (raises : bool) db (song_id error_message : string) :
  let db' := _mark_song_failed lib raises db song_id error_message in
  media_assets db' = media_assets db
  ∧ dom (songs db') = dom (songs db)
  ∧ (∀ id, UUID lib song_id ≠ inr id → songs db' !! id = songs db !! id)
  ∧ (raises = true → db' = db)
  ∧ (∀ id song, raises = false → UUID lib song_id = inr id →
       songs db !! id = Some song →
       status_of db' id = Some (SongStatus.value SongStatus.FAILED)
       ∧ match Song.meta_json song with
         | None =>
             meta_of db' id "error" = Some (PStr error_message)
             ∧ ∀ key, key ≠ "error" → meta_of db' id key = None
         | Some meta => ∀ key, meta_of db' id key = meta !! key
         end).
Proof.
  intros db'. subst db'. unfold _mark_song_failed.
  destruct raises; [by repeat split|].
  destruct (UUID lib song_id) as [msg|id] eqn:Hid; [by repeat split|].
  destruct (songs db !! id) as [song|] eqn:Hsong.
  - split; [done|]. split; [by eapply dom_set_song|].
    split; [|split; [done|]].
    + intros id' Hne. simpl. rewrite lookup_insert_ne; [done|congruence].
    + intros id' song' _ [= <-] Hsong'. rewrite Hsong in Hsong'.
      injection Hsong' as <-.
      pose proof (mark_song_failed_written lib db song_id id song
                    error_message Hid Hsong) as Hw.
      unfold _mark_song_failed in Hw. rewrite Hid, Hsong in Hw. rewrite Hw.
      unfold status_of, meta_of. simpl. rewrite lookup_insert_eq. simpl.
      split; [done|]. destruct (Song.meta_json song) as [meta|]; [done|].
      split; [by rewrite lookup_singleton_eq|].
      intros key Hkey. by rewrite lookup_singleton_ne.
  - split; [done|]. split; [done|]. split; [done|]. split; [done|].
    intros id' song' _ [= <-] ?. congruence.
Qed.

(** X19: marking a song failed a second time changes nothing: the status
    is [FAILED] already, and [meta_json] is a dictionary after the first
    time, so the second message is not stored and the first one, if it was
    recorded, stays. *)
Theorem mark_song_failed_first_error_stays
    lib db (song_id first second : string) :
  _mark_song_failed lib false
    (_mark_song_failed lib false db song_id first) song_id second
  = _mark_song_failed lib false db song_id first.
Proof.
  destruct (UUID lib song_id) as [msg|id] eqn:Hid;
    [unfold _mark_song_failed; by rewrite !Hid|].
  destruct (songs db !! id) as [song|] eqn:Hsong;
    [|unfold _mark_song_failed; by rewrite !Hid, !Hsong, ?Hid, ?Hsong].
  rewrite (mark_song_failed_written lib db song_id id song first Hid Hsong).
  erewrite mark_song_failed_written;
    [|done|simpl; apply lookup_insert_eq].
  unfold with_songs. simpl. rewrite insert_insert_eq.
  by destruct (Song.meta_json song).
Qed.

(** The two cases side by side: on the song that carries [bpm] the row
    ends [FAILED] with its dictionary as it was; on the song without
    [meta_json] the message is stored, and a second failure does not replace
    it. *)
Example mark_song_failed_stored_rows :
  let on_dict :=
    _mark_song_failed Sample.lib false Sample.db Sample.song_id
                      "Invalid audio format" in
  let on_none :=
    _mark_song_failed Sample.lib false Sample2.db_no_meta Sample.song_id
                      "Invalid audio format" in
  let again :=
    _mark_song_failed Sample.lib false on_none Sample.song_id
                      "Insufficient disk space" in
  songs on_dict !! 1%N
  = Some (Song.make "FAILED" (Some {[ "bpm" := PInt 120 ]}))
  ∧ songs on_none !! 1%N
    = Some (Song.make "FAILED"
                      (Some {[ "error" := PStr "Invalid audio format" ]}))
  ∧ songs again !! 1%N
    = Some (Song.make "FAILED"
                      (Some {[ "error" := PStr "Invalid audio format" ]})).
Proof. by vm_compute. Qed.

(** ** What one execution changes *)

Ltac found_case :=
  match goal with
  | |- context [match songs ?d !! ?i with _ => _ end] =>
      destruct (songs d !! i) as [?song|] eqn:?Hsong
  end.

Ltac created_case :=
  match goal with
  | |- context [_create_media_assets ?l ?r ?d ?s ?v ?o ?i ?m1 ?m2 ?m3] =>
      destruct (_create_media_assets l r d s v o i m1 m2 m3)
        as [?db ?created] eqn:?Hcreate
  end.

Ltac task_cases lib faults song_id :=
  unfold process_song_body;
  destruct (in_step1 faults) as [?e|] eqn:?Hstep1; [|
  destruct (UUID lib song_id) as [?msg|?id] eqn:?Huuid; [|
  found_case; [
  destruct (in_pipeline faults) as [?e|] eqn:?Hpipeline; [|
  created_case;
  destruct (in_step6 faults) as [?e|] eqn:?Hstep6; [| found_case ] ] |] ] ].

(** What [_create_media_assets] leaves: the songs as they were, and either
    the registry as it was, or three more records, one of each mandatory
    kind, with the paths given. *)
Lemma create_media_assets_effect
    lib (raises : bool) db (song_id : string)
    (video_path audio_original_path audio_inst_path : string)
    (m1 m2 m3 : option (gmap string PyVal)) db' (created : bool) :
  _create_media_assets lib raises db song_id
    video_path audio_original_path audio_inst_path m1 m2 m3
  = (db', created) →
  songs db' = songs db
  ∧ ∃ added,
      media_assets db' = (media_assets db ++ added)%list
      ∧ if created then
          raises = false
          ∧ ∃ id, UUID lib song_id = inr id
            ∧ MediaAsset.type <$> added
              = ["video_master"; "audio_original"; "audio_inst"]
            ∧ MediaAsset.path <$> added
              = [video_path; audio_original_path; audio_inst_path]
            ∧ MediaAsset.song_id <$> added = [id; id; id]
        else added = [].
Proof.
  unfold _create_media_assets. destruct raises.
  { intros [= <- <-]. split; [done|]. exists []. by rewrite app_nil_r. }
  destruct (UUID lib song_id) as [msg|id].
  { intros [= <- <-]. split; [done|]. exists []. by rewrite app_nil_r. }
  intros [= <- <-]. split; [done|]. eexists.
  split; [simpl; rewrite <- !app_assoc; reflexivity|].
  split; [done|]. by exists id.
Qed.

Lemma mark_song_failed_frame
    lib (raises : bool) db (song_id error_message : string) :
  let db' := _mark_song_failed lib raises db song_id error_message in
  media_assets db' = media_assets db
  ∧ dom (songs db') = dom (songs db)
  ∧ (∀ id, UUID lib song_id ≠ inr id → songs db' !! id = songs db !! id).
Proof.
  intros db'. subst db'. unfold _mark_song_failed.
  destruct raises; [done|].
  destruct (UUID lib song_id) as [msg|id] eqn:Hid; [done|].
  destruct (songs db !! id) as [song|] eqn:Hsong; [|done].
  split; [done|]. split; [by eapply dom_set_song|].
  intros id' Hne. simpl. rewrite lookup_insert_ne; [done|congruence].
Qed.

(** The body of the task never adds or removes a song, changes no other
    song and no [meta_json], and adds to the registry either nothing or the
    three records of this song. *)
Lemma process_song_body_effect
    lib faults db (song_id file_path : string) db' r :
  process_song_body lib faults db song_id file_path = (db', r) →
  dom (songs db') = dom (songs db)
  ∧ (∀ id, UUID lib song_id ≠ inr id → songs db' !! id = songs db !! id)
  ∧ (∀ id key, meta_of db' id key = meta_of db id key)
  ∧ ∃ added,
      media_assets db' = (media_assets db ++ added)%list
      ∧ (added = []
         ∨ ∃ id, UUID lib song_id = inr id
             ∧ MediaAsset.type <$> added
               = ["video_master"; "audio_original"; "audio_inst"]
             ∧ MediaAsset.path <$> added
               = [file_path;
                  audio_original
                    (_generate_output_paths lib song_id file_path);
                  audio_inst (_generate_output_paths lib song_id file_path)]
             ∧ MediaAsset.song_id <$> added = [id; id; id]).
Proof.
  assert (∀ l : list MediaAsset.t, ∃ added,
            l = (l ++ added)%list
            ∧ (added = [] ∨ ∃ id, UUID lib song_id = inr id
                 ∧ MediaAsset.type <$> added
                   = ["video_master"; "audio_original"; "audio_inst"]
                 ∧ MediaAsset.path <$> added
                   = [file_path;
                      audio_original
                        (_generate_output_paths lib song_id file_path);
                      audio_inst
                        (_generate_output_paths lib song_id file_path)]
                 ∧ MediaAsset.song_id <$> added = [id; id; id])) as Hsame
    by (intros l; exists []; rewrite app_nil_r; split; [done|by left]).
  task_cases lib faults song_id; intros ?; simplify_eq;
    try (repeat split; (done || apply Hsame)).
  - (* a processing step raises *)
    split; [by eapply dom_set_song|]. split; [|split; [|by apply Hsame]].
    + intros id' Hne. simpl. rewrite lookup_insert_ne; [done|congruence].
    + intros id' key. by apply meta_of_set_status.
  - (* step 6 raises *)
    apply create_media_assets_effect in Hcreate
      as (Hsongs & added & Hadded & Hcreated).
    simpl in *. split; [rewrite Hsongs; by eapply dom_set_song|].
    split; [|split].
    + intros id' Hne. rewrite Hsongs, lookup_insert_ne; [done|congruence].
    + intros id' key. unfold meta_of. rewrite Hsongs.
      by apply (meta_of_set_status db id).
    + exists added. split; [done|].
      destruct created; [right|by left].
      destruct Hcreated as (_ & id' & Hid' & ?).
      rewrite Huuid in Hid'. injection Hid' as <-. by exists id.
  - (* the song is set READY *)
    apply create_media_assets_effect in Hcreate
      as (Hsongs & added & Hadded & Hcreated).
    simpl in *. rewrite Hsongs in Hsong0.
    rewrite lookup_insert_eq in Hsong0. simplify_eq.
    split; [rewrite Hsongs, insert_insert_eq; by eapply dom_set_song|].
    split; [|split].
    + intros id' Hne.
      rewrite Hsongs, !lookup_insert_ne; [done|congruence..].
    + intros id' key. unfold meta_of. simpl.
      rewrite Hsongs, insert_insert_eq.
      exact (meta_of_set_status db id song _ id' key Hsong).
    + exists added. split; [done|].
      destruct created; [right|by left].
      destruct Hcreated as (_ & id' & Hid' & ?).
      rewrite Huuid in Hid'. injection Hid' as <-. by exists id.
  - (* the song has gone before step 6: not possible *)
    apply create_media_assets_effect in Hcreate as (Hsongs & _).
    simpl in *. rewrite Hsongs, lookup_insert_eq in Hsong0. done.
Qed.

(** X20: one execution of the task never adds or removes a song, never
    changes a song other than the one it was given, never removes or changes
    a record of the registry, and adds either no record or three records of
    its song: the video at [file_path] and the two audio tracks at the paths
    of [_generate_output_paths]. *)
Theorem process_song_task_frame
    lib faults db (song_id file_path : string) :
  let db' := (process_song_task lib faults db song_id file_path).1 in
  dom (songs db') = dom (songs db)
  ∧ (∀ id, UUID lib song_id ≠ inr id → songs db' !! id = songs db !! id)
  ∧ ∃ added,
      media_assets db' = (media_assets db ++ added)%list
      ∧ (added = []
         ∨ ∃ id, UUID lib song_id = inr id
             ∧ MediaAsset.type <$> added
               = ["video_master"; "audio_original"; "audio_inst"]
             ∧ MediaAsset.path <$> added
               = [file_path;
                  audio_original
                    (_generate_output_paths lib song_id file_path);
                  audio_inst (_generate_output_paths lib song_id file_path)]
             ∧ MediaAsset.song_id <$> added = [id; id; id]).
Proof.
  intros db'. subst db'. unfold process_song_task.
  destruct (process_song_body lib faults db song_id file_path)
    as [db1 r] eqn:Hbody.
  apply process_song_body_effect in Hbody as (Hdom & Hother & _ & Hadded).
  destruct r as [[|str_e]|res]; simpl; [| |done];
    match goal with
    | |- context [_mark_song_failed ?l ?r ?d ?s ?m] =>
        destruct (mark_song_failed_frame l r d s m) as (Hm1 & Hm2 & Hm3)
    end;
    (split; [congruence|]); (split; [|by rewrite Hm1]);
    intros id Hne; by rewrite Hm3, Hother.
Qed.

(** X21: the [assets_created] flag of a successful result is truthful:
    when it is true the execution has added the three records of the song to
    the registry and the song is complete; when it is false the execution
    has added no record. *)
Theorem process_song_task_assets_created
    lib faults db (song_id file_path : string) db'
    (song_id' status : string) (created : bool) paths (message : string) :
  process_song_task lib faults db song_id file_path
  = (db', Returned (Processed song_id' status created paths message)) →
  ∃ added,
    media_assets db' = (media_assets db ++ added)%list
    ∧ if created then
        ∃ id, UUID lib song_id = inr id
          ∧ MediaAsset.type <$> added
            = ["video_master"; "audio_original"; "audio_inst"]
          ∧ MediaAsset.path <$> added
            = [file_path; audio_original paths; audio_inst paths]
          ∧ MediaAsset.song_id <$> added = [id; id; id]
          ∧ SyncMediaAssetService.has_required_assets db' id = true
      else added = [].
Proof.
  unfold process_song_task.
  destruct (process_song_body lib faults db song_id file_path)
    as [db1 [[|str_e]|res]] eqn:Hbody; [done|done|].
  intros [= <- ->]. revert Hbody.
  task_cases lib faults song_id; intros ?; simplify_eq.
  all: pose proof Hcreate as Hcomplete.
  all: apply create_media_assets_effect in Hcreate
         as (Hsongs & added & Hadded & Hcreated).
  all: exists added; split; [done|].
  all: destruct created; [|done].
  all: destruct Hcreated as (_ & id' & Hid' & Htypes & Hpaths & Hids).
  all: rewrite Huuid in Hid'; injection Hid' as <-.
  all: exists id; repeat (split; [done|]).
  all: rewrite ?has_required_assets_with_songs.
  all: by eapply create_media_assets_complete.
Qed.

Lemma process_song_task_assets_created_witness :
  let result :=
    process_song_task Sample.lib no_faults Sample.db
                      Sample.song_id Sample.file_path in
  let paths := _generate_output_paths Sample.lib Sample.song_id
                                      Sample.file_path in
  result
  = (result.1,
     Returned (Processed Sample.song_id "READY" true paths
                         "Song processed successfully"))
  ∧ ∃ added,
      media_assets result.1 = (media_assets Sample.db ++ added)%list
      ∧ ∃ id, UUID Sample.lib Sample.song_id = inr id
          ∧ MediaAsset.type <$> added
            = ["video_master"; "audio_original"; "audio_inst"]
          ∧ MediaAsset.path <$> added
            = [Sample.file_path; audio_original paths; audio_inst paths]
          ∧ MediaAsset.song_id <$> added = [id; id; id]
          ∧ SyncMediaAssetService.has_required_assets result.1 id = true.
Proof.
  intros result paths.
  assert (result
          = (result.1,
             Returned (Processed Sample.song_id "READY" true paths
                                 "Song processed successfully"))) as Hresult
    by (vm_compute; reflexivity).
  split; [exact Hresult|].
  exact (process_song_task_assets_created Sample.lib no_faults Sample.db
           Sample.song_id Sample.file_path result.1 Sample.song_id "READY"
           true paths "Song processed successfully" Hresult).
Defined.

Lemma status_of_set_status db id song (v : string) :
  status_of (with_songs (<[id := Song.set_status v song]> (songs db)) db) id
  = Some v.
Proof. unfold status_of. simpl. by rewrite lookup_insert_eq. Qed.

(** X22: an execution that succeeds sets the song [READY] and leaves every
    [meta_json] as it was; an [error] recorded by an earlier failure of the
    song is still there. *)
Theorem process_song_task_success_keeps_meta
    lib faults db (song_id file_path : string) db' id
    (song_id' status : string) (created : bool) paths (message : string) :
  UUID lib song_id = inr id →
  process_song_task lib faults db song_id file_path
  = (db', Returned (Processed song_id' status created paths message)) →
  status_of db' id = Some (SongStatus.value SongStatus.READY)
  ∧ status = SongStatus.value SongStatus.READY
  ∧ ∀ id' key, meta_of db' id' key = meta_of db id' key.
Proof.
  intros Hid. unfold process_song_task.
  destruct (process_song_body lib faults db song_id file_path)
    as [db1 [[|str_e]|res]] eqn:Hbody; [done|done|].
  intros [= <- ->].
  pose proof (process_song_body_effect _ _ _ _ _ _ _ Hbody)
    as (_ & _ & Hmeta & _).
  split; [|split; [|done]]; revert Hbody;
    task_cases lib faults song_id; intros ?; simplify_eq; try done.
  - apply status_of_set_status.
  - apply create_media_assets_songs in Hcreate. simpl in Hcreate.
    rewrite Hcreate, lookup_insert_eq in Hsong0. done.
Qed.

Lemma process_song_task_success_keeps_meta_witness :
  let failed :=
    (process_song_task Sample.lib (Sample.retried 0%nat) Sample.db
                       Sample.song_id Sample.file_path).1 in
  let result :=
    process_song_task Sample.lib (Sample.retried 1%nat) failed
                      Sample.song_id Sample.file_path in
  let paths := _generate_output_paths Sample.lib Sample.song_id
                                      Sample.file_path in
  (UUID Sample.lib Sample.song_id = inr 1%N
   ∧ result
     = (result.1,
        Returned (Processed Sample.song_id "READY" true paths
                            "Song processed successfully")))
  ∧ (status_of result.1 1%N = Some (SongStatus.value SongStatus.READY)
     ∧ "READY" = SongStatus.value SongStatus.READY
     ∧ ∀ id' key, meta_of result.1 id' key = meta_of failed id' key).
Proof.
  intros failed result paths.
  assert (UUID Sample.lib Sample.song_id = inr 1%N) as Hid
    by (vm_compute; reflexivity).
  assert (result
          = (result.1,
             Returned (Processed Sample.song_id "READY" true paths
                                 "Song processed successfully"))) as Hresult
    by (vm_compute; reflexivity).
  split; [split; [exact Hid|exact Hresult]|].
  exact (process_song_task_success_keeps_meta Sample.lib (Sample.retried 1%nat)
           failed Sample.song_id Sample.file_path result.1 1%N
           Sample.song_id "READY" true paths "Song processed successfully"
           Hid Hresult).
Defined.

(** ** Time limit, retries and malformed ids *)

(** X23: when the soft time limit is hit in the first execution, in
    step 1, in a processing step or in step 6, the run ends there without
    a retry: the task returns the failure [Processing timeout] and the
    song is [FAILED].  The message is under [error] when the song had no
    [meta_json]; a [meta_json] that was a dictionary is as it was. *)
Theorem soft_time_limit_is_terminal
    lib env db (song_id file_path : string) id song :
  UUID lib song_id = inr id → songs db !! id = Some song →
  in_mark_failed (env 0%nat) = false →
  in_step1 (env 0%nat) = Some SoftTimeLimitExceeded
  ∨ (in_step1 (env 0%nat) = None
     ∧ (in_pipeline (env 0%nat) = Some SoftTimeLimitExceeded
        ∨ (in_pipeline (env 0%nat) = None
           ∧ in_step6 (env 0%nat) = Some SoftTimeLimitExceeded))) →
  ∃ db',
    celery_run lib env db song_id file_path
    = [(db', Returned (NotProcessed song_id "Processing timeout"))]
    ∧ status_of db' id = Some (SongStatus.value SongStatus.FAILED)
    ∧ match Song.meta_json song with
      | None => meta_of db' id "error" = Some (PStr "Processing timeout")
      | Some meta => ∀ key, meta_of db' id key = meta !! key
      end.
Proof.
  intros Hid Hsong Hmark Hlimit.
  assert (∃ db1 song1,
            process_song_body lib (env 0%nat) db song_id file_path
            = (db1, inl SoftTimeLimitExceeded)
            ∧ songs db1 !! id = Some song1
            ∧ Song.meta_json song1 = Song.meta_json song)
    as (db1 & song1 & Hbody & Hsong1 & Hmeta).
  { unfold process_song_body.
    destruct Hlimit as [->|[-> [Hp|[Hp H6]]]]; [by eexists _, _|..];
      rewrite Hid, Hsong, Hp.
    - eexists _, _. split; [done|]. simpl. by rewrite lookup_insert_eq.
    - created_case. rewrite H6.
      apply create_media_assets_songs in Hcreate. simpl in Hcreate.
      eexists _, _. split; [done|]. by rewrite Hcreate, lookup_insert_eq. }
  exists (_mark_song_failed lib false db1 song_id "Processing timeout").
  split.
  - unfold celery_run. simpl. unfold process_song_task.
    by rewrite Hbody, Hmark.
  - destruct (mark_song_failed_spec lib db1 song_id id song1
                "Processing timeout" Hid Hsong1)
      as (Hstatus & Hnone & Hdict & _).
    split; [done|]. rewrite <- Hmeta.
    destruct (Song.meta_json song1) as [meta|] eqn:Hmeta1; [|by apply Hnone].
    intros key. rewrite Hdict by done.
    unfold meta_of. by rewrite Hsong1, Hmeta1.
Qed.

Lemma soft_time_limit_is_terminal_witness :
  (UUID Sample.lib Sample.song_id = inr 1%N
   ∧ songs Sample.db !! 1%N
     = Some (Song.make "PENDING" (Some {[ "bpm" := PInt 120 ]}))
   ∧ in_mark_failed (Sample2.timed_out 0%nat) = false
   ∧ (in_step1 (Sample2.timed_out 0%nat) = Some SoftTimeLimitExceeded
      ∨ (in_step1 (Sample2.timed_out 0%nat) = None
         ∧ (in_pipeline (Sample2.timed_out 0%nat)
            = Some SoftTimeLimitExceeded
            ∨ (in_pipeline (Sample2.timed_out 0%nat) = None
               ∧ in_step6 (Sample2.timed_out 0%nat)
                 = Some SoftTimeLimitExceeded)))))
  ∧ ∃ db',
      celery_run Sample.lib Sample2.timed_out Sample.db
                 Sample.song_id Sample.file_path
      = [(db', Returned (NotProcessed Sample.song_id "Processing timeout"))]
      ∧ status_of db' 1%N = Some (SongStatus.value SongStatus.FAILED)
      ∧ ∀ key,
          meta_of db' 1%N key
          = ({[ "bpm" := PInt 120 ]} : gmap string PyVal) !! key.
Proof.
  assert (UUID Sample.lib Sample.song_id = inr 1%N) as Hid
    by (vm_compute; reflexivity).
  assert (songs Sample.db !! 1%N
          = Some (Song.make "PENDING" (Some {[ "bpm" := PInt 120 ]})))
    as Hsong by (vm_compute; reflexivity).
  assert (in_mark_failed (Sample2.timed_out 0%nat) = false) as Hmark
    by reflexivity.
  assert (in_step1 (Sample2.timed_out 0%nat) = Some SoftTimeLimitExceeded
          ∨ (in_step1 (Sample2.timed_out 0%nat) = None
             ∧ (in_pipeline (Sample2.timed_out 0%nat)
                = Some SoftTimeLimitExceeded
                ∨ (in_pipeline (Sample2.timed_out 0%nat) = None
                   ∧ in_step6 (Sample2.timed_out 0%nat)
                     = Some SoftTimeLimitExceeded)))) as Hlimit
    by (right; split; [reflexivity|left; reflexivity]).
  split; [done|].
  exact (soft_time_limit_is_terminal Sample.lib Sample2.timed_out Sample.db
           Sample.song_id Sample.file_path 1%N _ Hid Hsong Hmark Hlimit).
Defined.

Lemma status_of_insert db id' id song :
  status_of (with_songs (<[id := song]> (songs db)) db) id'
  = if decide (id = id') then Some (Song.status song) else status_of db id'.
Proof.
  unfold status_of. simpl. destruct (decide (id = id')) as [->|Hne].
  - by rewrite lookup_insert_eq.
  - by rewrite lookup_insert_ne.
Qed.

Lemma process_song_body_status
    lib faults db (song_id file_path : string) db' r id' :
  process_song_body lib faults db song_id file_path = (db', r) →
  status_of db' id' = status_of db id'
  ∨ status_of db' id' = Some (SongStatus.value SongStatus.PROCESSING)
  ∨ status_of db' id' = Some (SongStatus.value SongStatus.READY).
Proof.
  task_cases lib faults song_id; intros ?; simplify_eq; try (by left).
  - rewrite status_of_insert. destruct (decide _); eauto.
  - apply create_media_assets_songs in Hcreate. unfold status_of.
    rewrite Hcreate. fold (status_of (with_songs (<[id := Song.set_status
      (SongStatus.value SongStatus.PROCESSING) song]> (songs db)) db) id').
    rewrite status_of_insert. destruct (decide _); eauto.
  - apply create_media_assets_songs in Hcreate. unfold status_of. simpl.
    rewrite Hcreate. simpl.
    destruct (decide (id = id')) as [->|Hne].
    + rewrite lookup_insert_eq. eauto.
    + rewrite !lookup_insert_ne by done. eauto.
  - apply create_media_assets_songs in Hcreate. unfold status_of.
    rewrite Hcreate. fold (status_of (with_songs (<[id := Song.set_status
      (SongStatus.value SongStatus.PROCESSING) song]> (songs db)) db) id').
    rewrite status_of_insert. destruct (decide _); eauto.
Qed.

Lemma mark_song_failed_status
    lib (raises : bool) db (song_id error_message : string) id' :
  status_of (_mark_song_failed lib raises db song_id error_message) id'
  = status_of db id'
  ∨ status_of (_mark_song_failed lib raises db song_id error_message) id'
    = Some (SongStatus.value SongStatus.FAILED).
Proof.
  unfold _mark_song_failed. destruct raises; [by left|].
  destruct (UUID lib song_id) as [msg|id]; [by left|].
  destruct (songs db !! id) as [song|] eqn:Hsong; [|by left].
  rewrite status_of_insert. destruct (decide _); [right|by left].
  simpl. by destruct (Song.meta_json song).
Qed.

(** X25: the only statuses the task writes are [PROCESSING], [READY] and
    [FAILED]: after an execution every song has the status it had before or
    one of these three, so the task never produces [PENDING] or
    [PARTIAL]. *)
Theorem process_song_task_statuses
    lib faults db (song_id file_path : string) (id' : uuid) :
  let db' := (process_song_task lib faults db song_id file_path).1 in
  status_of db' id' = status_of db id'
  ∨ status_of db' id' = Some (SongStatus.value SongStatus.PROCESSING)
  ∨ status_of db' id' = Some (SongStatus.value SongStatus.READY)
  ∨ status_of db' id' = Some (SongStatus.value SongStatus.FAILED).
Proof.
  intros db'. subst db'. unfold process_song_task.
  destruct (process_song_body lib faults db song_id file_path)
    as [db1 r] eqn:Hbody.
  pose proof (process_song_body_status _ _ _ _ _ _ _ id' Hbody) as Hb.
  destruct r as [[|str_e]|res]; simpl; [| |naive_solver];
    match goal with
    | |- context [_mark_song_failed ?l ?r ?d ?s ?m] =>
        destruct (mark_song_failed_status l r d s m id') as [->| ->]
    end; naive_solver.
Qed.

(** An execution that meets no fault up to and including the creation of
    the records: where it ends depends on step 6 alone, and it has added the
    three records of the song. *)
Lemma process_song_task_through_step5
    lib faults db (song_id file_path : string) id song :
  UUID lib song_id = inr id → songs db !! id = Some song →
  in_step1 faults = None → in_pipeline faults = None →
  in_create_assets faults = false →
  ∃ db' added,
    process_song_task lib faults db song_id file_path
    = (db',
       match in_step6 faults with
       | None =>
           Returned (Processed song_id (SongStatus.value SongStatus.READY)
                               true
                               (_generate_output_paths lib song_id file_path)
                               "Song processed successfully")
       | Some SoftTimeLimitExceeded =>
           Returned (NotProcessed song_id "Processing timeout")
       | Some (Exception str_e) => Raised (Exception str_e)
       end)
    ∧ is_Some (songs db' !! id)
    ∧ (in_step6 faults = None →
       status_of db' id = Some (SongStatus.value SongStatus.READY))
    ∧ media_assets db' = (media_assets db ++ added)%list
    ∧ MediaAsset.type <$> added
      = ["video_master"; "audio_original"; "audio_inst"]
    ∧ MediaAsset.path <$> added
      = [file_path;
         audio_original (_generate_output_paths lib song_id file_path);
         audio_inst (_generate_output_paths lib song_id file_path)]
    ∧ MediaAsset.song_id <$> added = [id; id; id].
Proof.
  intros Hid Hsong H1 Hp Hc.
  unfold process_song_task, process_song_body.
  rewrite H1, Hid, Hsong, Hp, Hc. unfold _create_media_assets at 1.
  rewrite Hid. simpl.
  destruct (in_step6 faults) as [[|str_e]|].
  - eexists _, _. split; [reflexivity|].
    split; [apply mark_song_failed_keeps_song; simpl;
            rewrite lookup_insert_eq; by eexists|].
    split; [done|].
    match goal with
    | |- context [_mark_song_failed ?l ?r ?d ?s ?m] =>
        destruct (mark_song_failed_frame l r d s m) as (-> & _)
    end.
    simpl. rewrite <- !app_assoc. by repeat split.
  - eexists _, _. split; [reflexivity|].
    split; [apply mark_song_failed_keeps_song; simpl;
            rewrite lookup_insert_eq; by eexists|].
    split; [done|].
    match goal with
    | |- context [_mark_song_failed ?l ?r ?d ?s ?m] =>
        destruct (mark_song_failed_frame l r d s m) as (-> & _)
    end.
    simpl. rewrite <- !app_assoc. by repeat split.
  - rewrite lookup_insert_eq. eexists _, _. split; [reflexivity|]. simpl.
    split; [rewrite lookup_insert_eq; by eexists|].
    split; [intros _; unfold status_of; simpl; by rewrite lookup_insert_eq|].
    rewrite <- !app_assoc. by repeat split.
Qed.

Lemma added_has_kind (added : list MediaAsset.t) id (kind : AssetType.t) :
  MediaAsset.type <$> added
  = ["video_master"; "audio_original"; "audio_inst"] →
  MediaAsset.song_id <$> added = [id; id; id] →
  kind ∈ [AssetType.VIDEO_MASTER; AssetType.AUDIO_ORIGINAL;
          AssetType.AUDIO_INST] →
  (1 ≤ length (filter (λ a, MediaAsset.song_id a = id
                            ∧ MediaAsset.type a = AssetType.value kind)
                      added))%nat.
Proof.
  destruct added as [|a [|b [|c [|d l]]]]; try done.
  intros [= Ha Hb Hc] [= Ia Ib Ic] Hkind.
  assert (∃ x, x ∈ filter (λ a, MediaAsset.song_id a = id
                               ∧ MediaAsset.type a = AssetType.value kind)
                          [a; b; c]) as [x Hx].
  { rewrite !elem_of_cons, elem_of_nil in Hkind.
    destruct Hkind as [->|[->|[->|[]]]];
      [exists a|exists b|exists c]; apply list_elem_of_filter;
      (split; [done|]); rewrite !elem_of_cons; eauto. }
  destruct (filter _ [a; b; c]); [by apply elem_of_nil in Hx|simpl; lia].
Qed.

(** X26: when the first execution registers the records but fails in
    step 6, and the retry goes through, the run ends [READY] with every
    mandatory kind registered twice for the song, and each lookup by kind of
    the API then raises [MultipleResultsFound] for it. *)
Theorem retry_registers_twice
    lib env db (song_id file_path : string) id (str_e : string) :
  UUID lib song_id = inr id → is_Some (songs db !! id) →
  in_step1 (env 0%nat) = None → in_pipeline (env 0%nat) = None →
  in_create_assets (env 0%nat) = false →
  in_step6 (env 0%nat) = Some (Exception str_e) →
  in_step1 (env 1%nat) = None → in_pipeline (env 1%nat) = None →
  in_create_assets (env 1%nat) = false → in_step6 (env 1%nat) = None →
  ∃ db1 db2 r,
    celery_run lib env db song_id file_path
    = [(db1, Raised (Exception str_e)); (db2, Returned r)]
    ∧ success r = true
    ∧ status_of db2 id = Some (SongStatus.value SongStatus.READY)
    ∧ ∀ kind,
        kind ∈ [AssetType.VIDEO_MASTER; AssetType.AUDIO_ORIGINAL;
                AssetType.AUDIO_INST] →
        MediaAssetService.get_asset_by_song_and_type db2 id kind
        = inl Sql.MultipleResultsFound.
Proof.
  intros Hid [song Hsong] H1 Hp Hc H6 H1' Hp' Hc' H6'.
  destruct (process_song_task_through_step5 lib (env 0%nat) db song_id
              file_path id song Hid Hsong H1 Hp Hc)
    as (db1 & added1 & Htask1 & [song1 Hsong1] & _ & Hassets1 & Hty1 & _
        & Hids1).
  destruct (process_song_task_through_step5 lib (env 1%nat) db1 song_id
              file_path id song1 Hid Hsong1 H1' Hp' Hc')
    as (db2 & added2 & Htask2 & _ & Hready & Hassets2 & Hty2 & _ & Hids2).
  rewrite H6 in Htask1. rewrite H6' in Htask2.
  eexists db1, db2, _. split.
  { unfold celery_run. simpl. by rewrite Htask1, Htask2. }
  split; [done|]. split; [by apply Hready|].
  intros kind Hkind. apply get_asset_by_song_and_type_raises.
  unfold records_of_kind. rewrite Hassets2, Hassets1, !filter_app, !length_app.
  pose proof (added_has_kind added1 id kind Hty1 Hids1 Hkind).
  pose proof (added_has_kind added2 id kind Hty2 Hids2 Hkind).
  lia.
Qed.

Lemma retry_registers_twice_witness :
  (UUID Sample.lib Sample.song_id = inr 1%N
   ∧ is_Some (songs Sample.db !! 1%N)
   ∧ in_step1 (Sample.retried 0%nat) = None
   ∧ in_pipeline (Sample.retried 0%nat) = None
   ∧ in_create_assets (Sample.retried 0%nat) = false
   ∧ in_step6 (Sample.retried 0%nat)
     = Some (Exception "server closed the connection")
   ∧ in_step1 (Sample.retried 1%nat) = None
   ∧ in_pipeline (Sample.retried 1%nat) = None
   ∧ in_create_assets (Sample.retried 1%nat) = false
   ∧ in_step6 (Sample.retried 1%nat) = None)
  ∧ ∃ db1 db2 r,
      celery_run Sample.lib Sample.retried Sample.db
                 Sample.song_id Sample.file_path
      = [(db1, Raised (Exception "server closed the connection"));
         (db2, Returned r)]
      ∧ success r = true
      ∧ status_of db2 1%N = Some (SongStatus.value SongStatus.READY)
      ∧ ∀ kind,
          kind ∈ [AssetType.VIDEO_MASTER; AssetType.AUDIO_ORIGINAL;
                  AssetType.AUDIO_INST] →
          MediaAssetService.get_asset_by_song_and_type db2 1%N kind
          = inl Sql.MultipleResultsFound.
Proof.
  assert (UUID Sample.lib Sample.song_id = inr 1%N) as Hid
    by (vm_compute; reflexivity).
  assert (is_Some (songs Sample.db !! 1%N)) as Hsome
    by (vm_compute; eexists; reflexivity).
  split; [repeat split; (exact Hid || exact Hsome || reflexivity)|].
  exact (retry_registers_twice Sample.lib Sample.retried Sample.db
           Sample.song_id Sample.file_path 1%N
           "server closed the connection" Hid Hsome
           eq_refl eq_refl eq_refl eq_refl eq_refl eq_refl eq_refl eq_refl).
Defined.

(** X27: when the song id is not a UUID and the database answers, every
    execution raises the [ValueError] of [UUID], so the run is retried to
    the end: four executions, each leaving the database as it was. *)
Theorem malformed_id_exhausts_retries
    lib env db (song_id file_path msg : string) :
  UUID lib song_id = inl msg →
  (∀ k, in_step1 (env k) = None) →
  celery_run lib env db song_id file_path
  = replicate 4 (db, Raised (Exception msg)).
Proof.
  intros Hid Hstep1.
  assert (∀ k, process_song_task lib (env k) db song_id file_path
               = (db, Raised (Exception msg))) as Htask.
  { intros k. unfold process_song_task, process_song_body, _mark_song_failed.
    rewrite Hstep1, Hid. by destruct (in_mark_failed (env k)). }
  unfold celery_run. simpl. by rewrite !Htask.
Qed.

Lemma malformed_id_exhausts_retries_witness :
  (UUID Sample.lib "not-a-uuid" = inl "badly formed hexadecimal UUID string"
   ∧ ∀ k, in_step1 (Sample2.calm k) = None)
  ∧ celery_run Sample.lib Sample2.calm Sample.db "not-a-uuid"
               Sample.file_path
    = replicate 4
        (Sample.db, Raised (Exception "badly formed hexadecimal UUID string")).
Proof.
  assert (UUID Sample.lib "not-a-uuid"
          = inl "badly formed hexadecimal UUID string") as Hid
    by (vm_compute; reflexivity).
  assert (∀ k, in_step1 (Sample2.calm k) = None) as Hcalm
    by (intros k; reflexivity).
  split; [split; [exact Hid|exact Hcalm]|].
  exact (malformed_id_exhausts_retries Sample.lib Sample2.calm Sample.db
           "not-a-uuid" Sample.file_path
           "badly formed hexadecimal UUID string" Hid Hcalm).
Defined.

(** X28: a first execution that meets no fault on an existing song ends
    the run: the task returns success with [assets_created] true and the
    paths of [_generate_output_paths], the song is [READY] and complete, and
    its [meta_json] is as before. *)
Theorem fault_free_run
    lib env db (song_id file_path : string) id :
  UUID lib song_id = inr id → is_Some (songs db !! id) →
  in_step1 (env 0%nat) = None → in_pipeline (env 0%nat) = None →
  in_create_assets (env 0%nat) = false → in_step6 (env 0%nat) = None →
  ∃ db',
    celery_run lib env db song_id file_path
    = [(db',
        Returned (Processed song_id (SongStatus.value SongStatus.READY) true
                            (_generate_output_paths lib song_id file_path)
                            "Song processed successfully"))]
    ∧ status_of db' id = Some (SongStatus.value SongStatus.READY)
    ∧ SyncMediaAssetService.has_required_assets db' id = true
    ∧ ∀ key, meta_of db' id key = meta_of db id key.
Proof.
  intros Hid [song Hsong] H1 Hp Hc H6.
  destruct (process_song_task_through_step5 lib (env 0%nat) db song_id
              file_path id song Hid Hsong H1 Hp Hc)
    as (db' & added & Htask & _ & Hready & _).
  rewrite H6 in Htask. exists db'. split.
  { unfold celery_run. simpl. by rewrite Htask. }
  split; [by apply Hready|]. split.
  - by eapply process_song_task_created_complete.
  - intros key. revert Htask. unfold process_song_task.
    destruct (process_song_body lib (env 0%nat) db song_id file_path)
      as [db1 [[|str_e]|res]] eqn:Hbody; [done|done|].
    intros [= <- _].
    by destruct (process_song_body_effect _ _ _ _ _ _ _ Hbody)
      as (_ & _ & Hmeta & _).
Qed.

Lemma fault_free_run_witness :
  (UUID Sample.lib Sample.song_id = inr 1%N
   ∧ is_Some (songs Sample.db !! 1%N)
   ∧ in_step1 (Sample2.calm 0%nat) = None
   ∧ in_pipeline (Sample2.calm 0%nat) = None
   ∧ in_create_assets (Sample2.calm 0%nat) = false
   ∧ in_step6 (Sample2.calm 0%nat) = None)
  ∧ ∃ db',
      celery_run Sample.lib Sample2.calm Sample.db
                 Sample.song_id Sample.file_path
      = [(db',
          Returned (Processed Sample.song_id
                              (SongStatus.value SongStatus.READY) true
                              (_generate_output_paths Sample.lib
                                 Sample.song_id Sample.file_path)
                              "Song processed successfully"))]
      ∧ status_of db' 1%N = Some (SongStatus.value SongStatus.READY)
      ∧ SyncMediaAssetService.has_required_assets db' 1%N = true
      ∧ ∀ key, meta_of db' 1%N key = meta_of Sample.db 1%N key.
Proof.
  assert (UUID Sample.lib Sample.song_id = inr 1%N) as Hid
    by (vm_compute; reflexivity).
  assert (is_Some (songs Sample.db !! 1%N)) as Hsome
    by (vm_compute; eexists; reflexivity).
  split; [repeat split; (exact Hid || exact Hsome || reflexivity)|].
  exact (fault_free_run Sample.lib Sample2.calm Sample.db
           Sample.song_id Sample.file_path 1%N Hid Hsome
           eq_refl eq_refl eq_refl eq_refl).
Defined.

(** X29: when a processing step raises and the write of the failure
    raises too, the second exception is swallowed: the task ends as it would
    have, returning the timeout failure or re-raising, but the song stays
    [PROCESSING], no [error] is recorded and the registry is untouched. *)
Theorem failure_write_swallowed
    lib faults db (song_id file_path : string) id song (e : Exc) :
  UUID lib song_id = inr id → songs db !! id = Some song →
  in_step1 faults = None → in_pipeline faults = Some e →
  in_mark_failed faults = true →
  ∃ db',
    process_song_task lib faults db song_id file_path
    = (db',
       match e with
       | SoftTimeLimitExceeded =>
           Returned (NotProcessed song_id "Processing timeout")
       | Exception str_e => Raised (Exception str_e)
       end)
    ∧ status_of db' id = Some (SongStatus.value SongStatus.PROCESSING)
    ∧ (∀ key, meta_of db' id key = meta_of db id key)
    ∧ media_assets db' = media_assets db.
Proof.
  intros Hid Hsong H1 Hp Hmark.
  unfold process_song_task, process_song_body, _mark_song_failed.
  rewrite H1, Hid, Hsong, Hp, Hmark.
  eexists. split; [by destruct e|].
  split; [apply status_of_set_status|]. split; [|done].
  intros key. by apply meta_of_set_status.
Qed.

Lemma failure_write_swallowed_witness :
  (UUID Sample.lib Sample.song_id = inr 1%N
   ∧ songs Sample.db !! 1%N
     = Some (Song.make "PENDING" (Some {[ "bpm" := PInt 120 ]}))
   ∧ in_step1 (Sample2.unrecorded (Exception "out of memory")) = None
   ∧ in_pipeline (Sample2.unrecorded (Exception "out of memory"))
     = Some (Exception "out of memory")
   ∧ in_mark_failed (Sample2.unrecorded (Exception "out of memory")) = true)
  ∧ ∃ db',
      process_song_task Sample.lib
        (Sample2.unrecorded (Exception "out of memory"))
        Sample.db Sample.song_id Sample.file_path
      = (db', Raised (Exception "out of memory"))
      ∧ status_of db' 1%N = Some (SongStatus.value SongStatus.PROCESSING)
      ∧ (∀ key, meta_of db' 1%N key = meta_of Sample.db 1%N key)
      ∧ media_assets db' = media_assets Sample.db.
Proof.
  assert (UUID Sample.lib Sample.song_id = inr 1%N) as Hid
    by (vm_compute; reflexivity).
  assert (songs Sample.db !! 1%N
          = Some (Song.make "PENDING" (Some {[ "bpm" := PInt 120 ]})))
    as Hsong by (vm_compute; reflexivity).
  split; [repeat split; (exact Hid || exact Hsong || reflexivity)|].
  exact (failure_write_swallowed Sample.lib
           (Sample2.unrecorded (Exception "out of memory")) Sample.db
           Sample.song_id Sample.file_path 1%N _ (Exception "out of memory")
           Hid Hsong eq_refl eq_refl eq_refl).
Defined.

End LifecycleMore.
